(** * QuickFF [lib/model.py]: reference models and the electrostatics assembler

    A shallow embedding of [HarmonicModel], [CoulombModel] and
    [electrostatics] of [lib/model.py], together with the fragment of numpy
    they call.  [np.linalg.eigh] and the distance primitive of [ic.py] are
    parameters.

    Conventions of the embedding.
    - A Python float is an exact rational ([Qc]); rounding, [inf] and [nan]
      are outside the model.  numpy's float division does not raise, and
      neither does [Qcdiv].  Where a statement about values depends on
      rounding, the same code is also given over binary64 ([F64]) and
      evaluated there.
    - A numpy array is a shape and its row-major data ([ndarray]).
    - A Python exception is the [Raise] branch of [result]. *)

From Stdlib Require Import QArith Qcanon Qcabs ZArith Lia PrimFloat.
From stdpp Require Import base numbers list strings.

Set Default Proof Using "Type".

(** ** Exceptions *)

Inductive exn : Set :=
  | ValueError      (* shapes that cannot be broadcast, reshaped or aligned *)
  | IndexError      (* subscript out of range *)
  | TypeError       (* len() of an unsized object *)
  | LinAlgError.    (* eigh on a matrix that is not square *)

Inductive result (A : Type) : Type :=
  | Ok (a : A)
  | Raise (e : exn).
Arguments Ok {A} a.
Arguments Raise {A} e.

Definition rbind {A B} (m : result A) (k : A → result B) : result B :=
  match m with
  | Ok a => k a
  | Raise e => Raise e
  end.

Notation "x ←! m ; k" := (rbind m (λ x, k))
  (at level 20, m at level 100, k at level 200, right associativity,
   format "x  ←!  m ;  '/' k").
Notation "' p ←! m ; k" := (rbind m (λ p, k))
  (at level 20, p pattern, m at level 100, k at level 200,
   right associativity).

Definition raises {A} (m : result A) : Prop := ∃ e, m = Raise e.

(** ** numpy arrays *)

Module Np.

Record ndarray : Type := NdArray { shape : list nat; data : list Qc }.

Definition size_of (s : list nat) : nat := foldr Nat.mul 1 s.

(** The invariant numpy keeps for every array it builds. *)
Definition wf (a : ndarray) : Prop := length (data a) = size_of (shape a).

(** [len(a)] *)
Definition len (a : ndarray) : result nat :=
  match shape a with
  | n :: _ => Ok n
  | [] => Raise TypeError
  end.

(** [a.reshape(s)] *)
Definition reshape (a : ndarray) (s : list nat) : result ndarray :=
  if decide (size_of s = length (data a)) then Ok (NdArray s (data a))
  else Raise ValueError.

(** [a[k]] on the flat data, for subscripts known to be in range. *)
Definition flat (d : list Qc) (k : nat) : Qc := default 0%Qc (d !! k).

(** *** Broadcasting *)

(** Shapes are aligned on their last axis: the shorter one gets leading 1s. *)
Definition pad (r : nat) (s : list nat) : list nat :=
  replicate (r - length s) 1 ++ s.

Fixpoint bshape (s t : list nat) : option (list nat) :=
  match s, t with
  | a :: s', b :: t' =>
      match bshape s' t' with
      | Some r =>
          if decide (a = b) then Some (a :: r)
          else if decide (a = 1) then Some (b :: r)
          else if decide (b = 1) then Some (a :: r)
          else None
      | None => None
      end
  | [], [] => Some []
  | _, _ => None
  end.

Fixpoint chunks {A} (k n : nat) (d : list A) : list (list A) :=
  match n with
  | 0 => []
  | S n' => take k d :: chunks k n' (drop k d)
  end.

(** The data of an array of shape [s] seen at the broadcast shape [t]:
    an axis of length 1 is repeated. *)
Fixpoint expand (s t : list nat) (d : list Qc) : list Qc :=
  match s, t with
  | a :: s', b :: t' =>
      if decide (a = b)
      then concat (expand s' t' <$> chunks (size_of s') a d)
      else concat (replicate b (expand s' t' d))
  | _, _ => d
  end.

Definition broadcast2 (f : Qc → Qc → Qc) (a b : ndarray) : result ndarray :=
  let r := length (shape a) `max` length (shape b) in
  let sa := pad r (shape a) in
  let sb := pad r (shape b) in
  match bshape sa sb with
  | Some t =>
      Ok (NdArray t (zip_with f (expand sa t (data a)) (expand sb t (data b))))
  | None => Raise ValueError
  end.

(** [a + b], [a - b] *)
Definition add : ndarray → ndarray → result ndarray := broadcast2 Qcplus.
Definition sub : ndarray → ndarray → result ndarray := broadcast2 Qcminus.

(** [a += b]: the sum must have the shape of [a]. *)
Definition iadd (a b : ndarray) : result ndarray :=
  r ←! add a b;
  if decide (shape r = shape a) then Ok r else Raise ValueError.

(** [c * a] for a Python float [c] *)
Definition scale (c : Qc) (a : ndarray) : ndarray :=
  NdArray (shape a) (Qcmult c <$> data a).

(** *** Constructors *)

Definition tabulate2 (n m : nat) (f : nat → nat → Qc) : list Qc :=
  i ← seq 0 n; f i <$> seq 0 m.

(** [np.zeros(s, float)] *)
Definition zeros (s : list nat) : ndarray :=
  NdArray s (replicate (size_of s) 0%Qc).

(** [np.identity(n)] *)
Definition identity (n : nat) : ndarray :=
  NdArray [n; n] (tabulate2 n n (λ i j, if decide (i = j) then 1%Qc else 0%Qc)).

(** [np.diag(v)] for a 1-d [v] *)
Definition diag (v : ndarray) : ndarray :=
  let n := length (data v) in
  NdArray [n; n]
    (tabulate2 n n (λ i j, if decide (i = j) then flat (data v) i else 0%Qc)).

(** [a.T] for a 2-d [a]; arrays of lower rank are their own transpose. *)
Definition transpose (a : ndarray) : ndarray :=
  match shape a with
  | [n; m] => NdArray [m; n] (tabulate2 m n (λ i j, flat (data a) (j * m + i)))
  | _ => a
  end.

(** [np.outer(a, b)]: both arguments are flattened. *)
Definition outer (a b : ndarray) : ndarray :=
  let n := length (data a) in
  let m := length (data b) in
  NdArray [n; m] (tabulate2 n m (λ i j, flat (data a) i * flat (data b) j)%Qc).

(** *** [np.dot]

    Every call of [np.dot] in [model.py] has operands whose ranks are fixed
    by a [reshape], [np.diag] or [eigh] just before; there is one function
    per pair of ranks, and a mismatch of the contracted axes raises. *)

Definition sumq (n : nat) (f : nat → Qc) : Qc :=
  foldr (λ k acc, f k + acc)%Qc 0%Qc (seq 0 n).

Definition dot_vv (a b : ndarray) : result Qc :=
  match shape a, shape b with
  | [n], [m] =>
      if decide (n = m)
      then Ok (sumq n (λ k, flat (data a) k * flat (data b) k)%Qc)
      else Raise ValueError
  | _, _ => Raise ValueError
  end.

Definition dot_mv (a b : ndarray) : result ndarray :=
  match shape a, shape b with
  | [n; k], [k'] =>
      if decide (k = k')
      then Ok (NdArray [n]
                 ((λ i, sumq k (λ l, flat (data a) (i * k + l) * flat (data b) l)%Qc)
                    <$> seq 0 n))
      else Raise ValueError
  | _, _ => Raise ValueError
  end.

Definition dot_mm (a b : ndarray) : result ndarray :=
  match shape a, shape b with
  | [n; k], [k'; m] =>
      if decide (k = k')
      then Ok (NdArray [n; m]
                 (tabulate2 n m (λ i j,
                    sumq k (λ l, flat (data a) (i * k + l)
                                 * flat (data b) (l * m + j))%Qc)))
      else Raise ValueError
  | _, _ => Raise ValueError
  end.

(** *** Subscript assignment *)

(** A Python subscript on an axis of length [n]: negative ones count from
    the end. *)
Definition norm_index (n : nat) (i : Z) : result nat :=
  if decide (0 ≤ i < Z.of_nat n)%Z then Ok (Z.to_nat i)
  else if decide (- Z.of_nat n ≤ i < 0)%Z then Ok (Z.to_nat (i + Z.of_nat n))
  else Raise IndexError.

(** [a[i, j] = v] for a 2-d [a] *)
Definition setitem2 (a : ndarray) (i j : Z) (v : Qc) : result ndarray :=
  match shape a with
  | [n; m] =>
      r ←! norm_index n i;
      c ←! norm_index m j;
      Ok (NdArray [n; m] (<[r * m + c := v]> (data a)))
  | _ => Raise IndexError
  end.

(** [enumerate(l)] *)
Definition enumerate {A} (l : list A) : list (nat * A) :=
  zip (seq 0 (length l)) l.

End Np.

Import Np.

(** A [for] loop whose body may raise: the exception leaves the loop. *)
Fixpoint for_each {A S} (l : list A) (body : A → S → result S) (s : S)
  : result S :=
  match l with
  | [] => Ok s
  | x :: l' => s' ←! body x s; for_each l' body s'
  end.

(** ** The distance primitive, [IC([i, j], bond_length)] of [ic.py]

    It is not part of [model.py]; the models only call its three methods on
    a coordinate array. *)

Module IC.
Record t : Type := Make {
  value : ndarray → Qc;
  grad : ndarray → ndarray;
  hess : ndarray → ndarray
}.
End IC.

(** ** Exclusion lists

    [exclude_pairs] is a Python list of two-element lists of ints, and
    [[i,j] in exclude_pairs] compares by value. *)

Definition pair_in (i j : nat) (pairs : list (list Z)) : bool :=
  bool_decide ([Z.of_nat i; Z.of_nat j] ∈ pairs).

(** [[i,j] in exclude_pairs or [j,i] in exclude_pairs] *)
Definition excluded (i j : nat) (pairs : list (list Z)) : bool :=
  pair_in i j pairs || pair_in j i pairs.

(** ** [class ZeroModel] *)

Module ZeroModel.

Record t : Type := Make { name : string }.

(** [__init__(self, name='ZeroModel')] *)
Definition init (name : string) : t := Make name.

Definition get_energy (self : t) (coords : ndarray) : Qc := 0%Qc.

Definition get_forces (self : t) (coords : ndarray) : ndarray :=
  zeros (shape coords).

Definition get_hessian (self : t) (coords : ndarray) : result ndarray :=
  n ←! len coords;
  Ok (zeros [n; 3; n; 3]).

End ZeroModel.

(** ** [class HarmonicModel] *)

Module HarmonicModel.

Record t : Type := Make {
  coords0 : ndarray;
  gradient : ndarray;
  hess : ndarray;
  reference : Qc;
  ridge : Qc;
  (* set by [diagonalize_hess] *)
  evals : ndarray;
  evecs : ndarray;
  ievals : ndarray;
  ihess : ndarray
}.

(** [0.5] *)
Definition half : Qc := Q2Qc (1 # 2).

Definition get_energy (self : t) (coords : ndarray) : result Qc :=
  let energy := reference self in
  Natoms ←! len (coords0 self);
  d ←! sub coords (coords0 self);
  dx ←! reshape d [3 * Natoms];
  g ←! reshape (gradient self) [3 * Natoms];
  gdx ←! dot_vv g dx;
  let energy := (energy + gdx)%Qc in
  H ←! reshape (hess self) [3 * Natoms; 3 * Natoms];
  Hdx ←! dot_mv H dx;
  dxHdx ←! dot_vv dx Hdx;
  let energy := (energy + half * dxHdx)%Qc in
  Ok energy.

Definition get_gradient (self : t) (coords : ndarray) : result ndarray :=
  Natoms ←! len (coords0 self);
  d ←! sub coords (coords0 self);
  dx ←! reshape d [3 * Natoms];
  H ←! reshape (hess self) [3 * Natoms; 3 * Natoms];
  Hdx ←! dot_mv H dx;
  Hdx3 ←! reshape Hdx [Natoms; 3];
  add (gradient self) Hdx3.

Definition get_hessian (self : t) (coords : ndarray) : ndarray :=
  hess self.

(** The loop shared by [diagonalize_hess] and [get_constrained_ihess]:
<<
    ievals = np.zeros(len(evals), float)
    for i, eigval in enumerate(evals):
        if abs(eigval)>self.ridge:
            ievals[i] = 1.0/eigval
>>
    [i] ranges over the subscripts of [evals], so the assignment is in
    range. *)
Definition invert_evals (ridge : Qc) (evals : ndarray) : result ndarray :=
  n ←! len evals;
  let ievals := zeros [n] in
  Ok (foldl (λ ievals '(i, eigval),
               if bool_decide (ridge < Qcabs eigval)%Qc
               then NdArray (shape ievals) (<[i := (1 / eigval)%Qc]> (data ievals))
               else ievals)
            ievals (enumerate (data evals))).

(** [np.dot(evecs, np.dot(np.diag(ievals), evecs.T))] *)
Definition recompose (evecs ievals : ndarray) : result ndarray :=
  inner ←! dot_mm (diag ievals) (transpose evecs);
  dot_mm evecs inner.

Section WithEigh.

(** [np.linalg.eigh] on the data of an [n]×[n] matrix: the eigenvalues and
    the matrix whose columns are the eigenvectors. *)
Variable eigh : nat → list Qc → list Qc * list Qc.

Definition linalg_eigh (a : ndarray) : result (ndarray * ndarray) :=
  match shape a with
  | [n; m] =>
      if decide (n = m)
      then let '(w, v) := eigh n (data a) in
           Ok (NdArray [n] w, NdArray [n; n] v)
      else Raise LinAlgError
  | _ => Raise LinAlgError
  end.

Definition diagonalize_hess (self : t) : result t :=
  Natoms ←! len (coords0 self);
  H ←! reshape (hess self) [3 * Natoms; 3 * Natoms];
  '(evals, evecs) ←! linalg_eigh H;
  ievals ←! invert_evals (ridge self) evals;
  P ←! recompose evecs ievals;
  ihess ←! reshape P [Natoms; 3; Natoms; 3];
  Ok (Make (coords0 self) (gradient self) (hess self) (reference self)
           (ridge self) evals evecs ievals ihess).

(** [__init__]; the attributes [diagonalize_hess] sets do not exist before
    it runs, and it does not read them. *)
Definition init (coords0 gradient hess : ndarray) (reference ridge : Qc)
  : result t :=
  let unset := zeros [0] in
  diagonalize_hess
    (Make coords0 gradient hess reference ridge unset unset unset unset).

(** [spring] defaults to [10.0*kjmol/angstrom**2], a constant of
    [molmod.units]; here the caller always passes it. *)
Definition get_constrained_hess (self : t) (free_indices : list Z)
    (spring : Qc) : result ndarray :=
  Natoms ←! len (coords0 self);
  let D := scale spring (identity (3 * Natoms)) in
  D ←! for_each free_indices (λ i D, setitem2 D i i 0%Qc) D;
  D4 ←! reshape D [Natoms; 3; Natoms; 3];
  add (hess self) D4.

Definition get_constrained_ihess (self : t) (free_indices : list Z)
    (spring : Qc) : result ndarray :=
  Natoms ←! len (coords0 self);
  ch ←! get_constrained_hess self free_indices spring;
  H ←! reshape ch [3 * Natoms; 3 * Natoms];
  '(evals, evecs) ←! linalg_eigh H;
  ievals ←! invert_evals (ridge self) evals;
  P ←! recompose evecs ievals;
  reshape P [Natoms; 3; Natoms; 3].

End WithEigh.

End HarmonicModel.

(** ** [class CoulombModel] *)

Module CoulombModel.

Record t : Type := Make {
  coords : ndarray;
  charges : list Qc;
  name : string;
  exclude_pairs : list (list Z);
  shift : Qc
}.

Section WithBond.

(** [IC([i, j], bond_length)] *)
Variable bond : nat → nat → IC.t.

Definition get_energy (self : t) (coords : ndarray) (shift : bool) : Qc :=
  let energy := 0%Qc in
  let energy := if shift then (energy - CoulombModel.shift self)%Qc else energy in
  foldl (λ energy '(i, qi),
    foldl (λ energy '(j, qj),
      if bool_decide (j ≤ i) then energy
      else if excluded i j (exclude_pairs self) then energy
      else (energy + qi * qj / IC.value (bond i j) coords)%Qc)
      energy (enumerate (charges self)))
    energy (enumerate (charges self)).

(** [__init__]: [self.shift] is read only when [shift] is true, so the
    call that computes it does not depend on the value it has before. *)
Definition init (coords : ndarray) (charges : list Qc) (name : string)
    (exclude_pairs : list (list Z)) : t :=
  let self := Make coords charges name exclude_pairs 0%Qc in
  Make coords charges name exclude_pairs (get_energy self coords false).

End WithBond.

End CoulombModel.

(** ** [electrostatics] *)

(** The [sample] dictionary, with its keys ['ac'], ['ffatypes'] and
    ['coordinates']. *)
Record Sample : Type := MkSample {
  ac : list Qc;
  ffatypes : list string;
  coordinates : ndarray
}.

(** [l[i]] in a Python list *)
Definition getitem {A} (l : list A) (i : nat) : result A :=
  match l !! i with
  | Some x => Ok x
  | None => Raise IndexError
  end.

Section WithBond.

Variable bond : nat → nat → IC.t.

(** The body of the inner loop once no [continue] was taken. *)
Definition accumulate (sample : Sample) (i j : nat)
    (st : ndarray * ndarray) : result (ndarray * ndarray) :=
  let '(forces, hess) := st in
  let qs := ac sample in
  let b := bond i j in
  let r := IC.value b (coordinates sample) in
  let qgrad := IC.grad b (coordinates sample) in
  let qi := flat qs i in
  let qj := flat qs j in
  term ←! sub (scale (2 / r)%Qc (outer qgrad qgrad))
              (IC.hess b (coordinates sample));
  hess ←! iadd hess (scale (qi * qj / (r * r))%Qc term);
  forces ←! iadd forces (scale (- qi * qj / (r * r))%Qc qgrad);
  Ok (forces, hess).

Definition electrostatics (sample : Sample) (exclude_pairs : list (list Z))
    (exclude_types : list string) : result (ndarray * ndarray) :=
  let qs := ac sample in
  let atypes := ffatypes sample in
  let forces := zeros [3 * length qs] in
  let hess := zeros [3 * length qs; 3 * length qs] in
  for_each (seq 0 (length qs)) (λ i st,
    ti ←! getitem atypes i;
    if bool_decide (ti ∈ exclude_types) then Ok st
    else for_each (seq 0 i) (λ j st,
      tj ←! getitem atypes j;
      if bool_decide (tj ∈ exclude_types) then Ok st
      else if excluded i j exclude_pairs then Ok st
      else accumulate sample i j st) st)
    (forces, hess).

End WithBond.

(** * The properties to establish, in the words of the specification *)

Module Spec.

(** A model of [N] atoms as the data model describes it: coordinates and
    gradient of shape [N]×3, Hessian of shape [N]×3×[N]×3. *)
Definition harmonic_shapes (self : HarmonicModel.t) (N : nat) : Prop :=
  wf (HarmonicModel.coords0 self) ∧ shape (HarmonicModel.coords0 self) = [N; 3] ∧
  wf (HarmonicModel.gradient self) ∧ shape (HarmonicModel.gradient self) = [N; 3] ∧
  wf (HarmonicModel.hess self) ∧ shape (HarmonicModel.hess self) = [N; 3; N; 3].





(** The diagonal penalty matrix: [spring] on every fixed degree of freedom,
    0 on the free ones and off the diagonal. *)
Definition penalty (free_indices : list Z) (spring : Qc) (a b : nat) : Qc :=
  if decide (a = b)
  then if decide (Z.of_nat a ∈ free_indices) then 0%Qc else spring
  else 0%Qc.

(** *** Pairwise sums *)

Definition sumq_list (l : list Qc) : Qc := foldr Qcplus 0%Qc l.

(** qᵢqⱼ / r_{ij} *)
Definition coulomb_pair (bond : nat → nat → IC.t) (charges : list Qc)
    (coords : ndarray) (p : nat * nat) : Qc :=
  (flat charges p.1 * flat charges p.2 / IC.value (bond p.1 p.2) coords)%Qc.

(** An exclusion entry [[a, b]] that names an atom outside [0, N). *)
Definition out_of_range (N : nat) (a b : Z) : Prop :=
  ¬ (0 ≤ a < Z.of_nat N)%Z ∨ ¬ (0 ≤ b < Z.of_nat N)%Z.

(** The distance primitive returns a gradient of length 3N and a Hessian of
    shape 3N×3N on the sample's coordinates. *)
Definition bond_shapes (bond : nat → nat → IC.t) (coords : ndarray) (N : nat)
  : Prop :=
  ∀ i j, i < N → j < N →
    wf (IC.grad (bond i j) coords) ∧
    shape (IC.grad (bond i j) coords) = [3 * N] ∧
    wf (IC.hess (bond i j) coords) ∧
    shape (IC.hess (bond i j) coords) = [3 * N; 3 * N].

(** An atom whose type label is in [exclude_types]. *)
Definition type_excluded (atypes exclude_types : list string) (i : nat) : bool :=
  match atypes !! i with
  | Some t => bool_decide (t ∈ exclude_types)
  | None => false
  end.

(** The pair is skipped: either atom's type is excluded, or the index pair
    is excluded in either order. *)
Definition skipped (sample : Sample) (exclude_pairs : list (list Z))
    (exclude_types : list string) (p : nat * nat) : bool :=
  type_excluded (ffatypes sample) exclude_types p.1
  || type_excluded (ffatypes sample) exclude_types p.2
  || excluded p.1 p.2 exclude_pairs.


(** Entry [k] of −(qᵢqⱼ/r²)·g *)
Definition force_term (bond : nat → nat → IC.t) (sample : Sample) (k : nat)
    (p : nat * nat) : Qc :=
  let b := bond p.1 p.2 in
  let r := IC.value b (coordinates sample) in
  let g := data (IC.grad b (coordinates sample)) in
  (- (flat (ac sample) p.1 * flat (ac sample) p.2 / (r * r)) * flat g k)%Qc.

(** Entry [(a, b)] of (qᵢqⱼ/r²)·((2/r)·g⊗g − H_r), for matrices of side [n] *)
Definition hess_term (bond : nat → nat → IC.t) (sample : Sample) (n a b : nat)
    (p : nat * nat) : Qc :=
  let bd := bond p.1 p.2 in
  let r := IC.value bd (coordinates sample) in
  let g := data (IC.grad bd (coordinates sample)) in
  let Hr := data (IC.hess bd (coordinates sample)) in
  (flat (ac sample) p.1 * flat (ac sample) p.2 / (r * r)
   * (2 / r * (flat g a * flat g b) - flat Hr (a * n + b)))%Qc.

(** The loop state [(forces, hess)]: a vector of length [n] and an
    [n]×[n] matrix. *)
Definition state_shapes (n : nat) (st : ndarray * ndarray) : Prop :=
  shape st.1 = [n] ∧ length (data st.1) = n ∧
  shape st.2 = [n; n] ∧ length (data st.2) = n * n.

(** The state [st'] is [st] with the terms of the pairs [l] added. *)
Definition accumulated (bond : nat → nat → IC.t) (sample : Sample) (n : nat)
    (l : list (nat * nat)) (st st' : ndarray * ndarray) : Prop :=
  state_shapes n st' ∧
  (∀ k, k < n →
     flat (data st'.1) k
     = (flat (data st.1) k + sumq_list (force_term bond sample k <$> l))%Qc) ∧
  (∀ a b, a < n → b < n →
     flat (data st'.2) (a * n + b)
     = (flat (data st.2) (a * n + b)
        + sumq_list (hess_term bond sample n a b <$> l))%Qc).

(** The pairs (i, j) with i < j < [N] for which neither [[i, j]] nor
    [[j, i]] is in the exclusion list, i-major. *)
Definition unexcluded_pairs (N : nat) (exclude_pairs : list (list Z))
  : list (nat * nat) :=
  filter (λ p, p.1 < p.2 ∧
               ([Z.of_nat p.1; Z.of_nat p.2] ∉ exclude_pairs) ∧
               ([Z.of_nat p.2; Z.of_nat p.1] ∉ exclude_pairs))
    (i ← seq 0 N; pair i <$> seq 0 N).

End Spec.

(** * Concrete inputs *)

Module Examples.

Definition q (z : Z) : Qc := Qc_of_Z z.

(** Two atoms, with a diagonal Hessian that is singular along z. *)
Definition coords2 : ndarray := NdArray [2; 3] (q <$> [0; 0; 0; 1; 0; 0]%Z).
Definition gradient2 : ndarray := NdArray [2; 3] (q <$> [1; 0; -1; 0; 2; 0]%Z).
Definition hess2 : ndarray :=
  NdArray [2; 3; 2; 3]
    (tabulate2 6 6 (λ i j,
       if decide (i = j) then flat (q <$> [2; 4; 0; 2; 4; 0]%Z) i else 0%Qc)).

Definition coords2' : ndarray := NdArray [2; 3] (q <$> [1; 1; 0; 2; 0; 1]%Z).

(** A single position, and three positions. *)
Definition coords1 : ndarray := NdArray [1; 3] (q <$> [3; 1; 2]%Z).
Definition coords3 : ndarray :=
  NdArray [3; 3] (q <$> [0; 0; 0; 1; 0; 0; 2; 0; 0]%Z).

(** An eigen-solver for diagonal matrices: the eigenvalues are the diagonal
    and the eigenvectors the unit vectors. *)
Definition diag_eigh (n : nat) (d : list Qc) : list Qc * list Qc :=
  ((λ i, flat d (i * n + i)) <$> seq 0 n, data (identity n)).

(** [HarmonicModel(coords2, gradient2, hess2, reference=7, ridge=1)] with
    its cached attributes left unset, for the methods that do not read
    them. *)
Definition harmonic2 : HarmonicModel.t :=
  let unset := zeros [0] in
  HarmonicModel.Make coords2 gradient2 hess2 (q 7) (q 1)
    unset unset unset unset.

(** The same model as its constructor builds it, with [diag_eigh] for
    [np.linalg.eigh]. *)
Definition harmonic2_built : HarmonicModel.t :=
  match HarmonicModel.init diag_eigh coords2 gradient2 hess2 (q 7) (q 1) with
  | Ok self => self
  | Raise _ => harmonic2
  end.

(** The distance primitive for atoms on the x axis: |xᵢ − xⱼ|, its gradient
    (±1 at the two x coordinates) and its Hessian (zero). *)
Definition axis_bond (i j : nat) : IC.t :=
  let sep c := (flat (data c) (3 * i) - flat (data c) (3 * j))%Qc in
  let sgn c := if decide (0 ≤ sep c)%Qc then 1%Qc else (-1)%Qc in
  IC.Make
    (λ c, Qcabs (sep c))
    (λ c, let n := length (data c) in
          NdArray [n]
            ((λ k, if decide (k = 3 * i) then sgn c
                   else if decide (k = 3 * j) then (- sgn c)%Qc
                   else 0%Qc) <$> seq 0 n))
    (λ c, let n := length (data c) in zeros [n; n]).

(** Three atoms at unit separations on the x axis, charges 1, −1, 1. *)
Definition charges3 : list Qc := q <$> [1; -1; 1]%Z.
Definition sample3 : Sample :=
  MkSample charges3 ["C"; "H"; "O"]%string coords3.

(** Free degrees of freedom: some of them, and all six. *)
Definition free_some : list Z := [0; 2; 5]%Z.
Definition free_all : list Z := [0; 1; 2; 3; 4; 5]%Z.

End Examples.

(** * Further notions used to state properties of the code *)

Module Props.

(** A flat [n]×[n] matrix that equals its transpose. *)
Definition symmetric (n : nat) (d : list Qc) : Prop :=
  ∀ a b, a < n → b < n → flat d (a * n + b) = flat d (b * n + a).


(** A subscript that numpy accepts on an axis of length [n]. *)
Definition valid_index (n : nat) (i : Z) : Prop :=
  (- Z.of_nat n ≤ i < Z.of_nat n)%Z.

(** The degree of freedom [a] is named by the list, directly or counted
    from the end. *)
Definition names (n : nat) (free_indices : list Z) (a : nat) : Prop :=
  Z.of_nat a ∈ free_indices ∨ (Z.of_nat a - Z.of_nat n)%Z ∈ free_indices.

#[global] Instance names_dec n free_indices a :
  Decision (names n free_indices a).
Proof. unfold names. apply _. Defined.

#[global] Instance valid_index_dec n i : Decision (valid_index n i).
Proof. unfold valid_index. apply _. Defined.

End Props.

(** * More concrete inputs *)

Module MoreExamples.
Import Examples.

(** A gradient with five entries instead of six. *)
Definition gradient_short : ndarray := NdArray [5] (q <$> [1; 0; -1; 0; 2]%Z).

(** A Hessian with the wrong number of entries for two atoms. *)
Definition hess_small : ndarray := NdArray [3; 3] (data (identity 3)).

(** A symmetric, non-diagonal Hessian for two atoms. *)
Definition hess_sym : ndarray :=
  NdArray [2; 3; 2; 3]
    (tabulate2 6 6 (λ i j, if decide (i = j) then q 2
                           else if decide (i + j = 5) then q 1 else 0%Qc)).

Definition harmonic_sym : HarmonicModel.t :=
  let unset := zeros [0] in
  HarmonicModel.Make coords2 gradient2 hess_sym (q 7) (q 0)
    unset unset unset unset.

(** The two-atom model with the short gradient. *)
Definition harmonic_short : HarmonicModel.t :=
  let unset := zeros [0] in
  HarmonicModel.Make coords2 gradient_short hess2 (q 7) (q 1)
    unset unset unset unset.

(** Free degrees of freedom given from the end, and in another order. *)
Definition free_negative : list Z := [-6; 2; -1]%Z.
Definition free_shuffled : list Z := [5; 0; 2; 0]%Z.
Definition free_bad : list Z := [0; 6]%Z.

(** A sample whose type labels stop short of its charges. *)
Definition sample_short : Sample :=
  MkSample charges3 ["C"; "H"]%string coords3.

End MoreExamples.

(** * The same code over binary64

    [get_constrained_hess] and [CoulombModel] once more, with Python's
    floats as IEEE 754 binary64 numbers, to evaluate them where rounding
    decides the value. *)

Module F64.

Record ndarray : Type := NdArray { shape : list nat; data : list float }.

Definition len (a : ndarray) : result nat :=
  match shape a with
  | n :: _ => Ok n
  | [] => Raise TypeError
  end.

Definition reshape (a : ndarray) (s : list nat) : result ndarray :=
  if decide (size_of s = length (data a)) then Ok (NdArray s (data a))
  else Raise ValueError.

Definition flat (d : list float) (k : nat) : float :=
  default 0%float (d !! k).

Fixpoint expand (s t : list nat) (d : list float) : list float :=
  match s, t with
  | a :: s', b :: t' =>
      if decide (a = b)
      then concat (expand s' t' <$> chunks (size_of s') a d)
      else concat (replicate b (expand s' t' d))
  | _, _ => d
  end.

Definition broadcast2 (f : float → float → float) (a b : ndarray)
  : result ndarray :=
  let r := length (shape a) `max` length (shape b) in
  let sa := pad r (shape a) in
  let sb := pad r (shape b) in
  match bshape sa sb with
  | Some t =>
      Ok (NdArray t (zip_with f (expand sa t (data a)) (expand sb t (data b))))
  | None => Raise ValueError
  end.

Definition add : ndarray → ndarray → result ndarray := broadcast2 PrimFloat.add.

Definition scale (c : float) (a : ndarray) : ndarray :=
  NdArray (shape a) (PrimFloat.mul c <$> data a).

Definition tabulate2 (n m : nat) (f : nat → nat → float) : list float :=
  i ← seq 0 n; f i <$> seq 0 m.

Definition identity (n : nat) : ndarray :=
  NdArray [n; n]
    (tabulate2 n n (λ i j, if decide (i = j) then 1%float else 0%float)).

Definition setitem2 (a : ndarray) (i j : Z) (v : float) : result ndarray :=
  match shape a with
  | [n; m] =>
      r ←! norm_index n i;
      c ←! norm_index m j;
      Ok (NdArray [n; m] (<[r * m + c := v]> (data a)))
  | _ => Raise IndexError
  end.

Module HarmonicModel.

Record t : Type := Make {
  coords0 : ndarray;
  gradient : ndarray;
  hess : ndarray;
  reference : float;
  ridge : float;
  evals : ndarray;
  evecs : ndarray;
  ievals : ndarray;
  ihess : ndarray
}.

Definition get_constrained_hess (self : t) (free_indices : list Z)
    (spring : float) : result ndarray :=
  Natoms ←! len (coords0 self);
  let D := scale spring (identity (3 * Natoms)) in
  D ←! for_each free_indices (λ i D, setitem2 D i i 0%float) D;
  D4 ←! reshape D [Natoms; 3; Natoms; 3];
  add (hess self) D4.

End HarmonicModel.

Module CoulombModel.

Record t : Type := Make {
  coords : ndarray;
  charges : list float;
  name : string;
  exclude_pairs : list (list Z);
  shift : float
}.

Section WithBond.

(** [IC([i, j], bond_length).value] *)
Variable bond_value : nat → nat → ndarray → float.

Definition get_energy (self : t) (coords : ndarray) (shift : bool) : float :=
  let energy := 0%float in
  let energy :=
    if shift then PrimFloat.sub energy (CoulombModel.shift self) else energy in
  foldl (λ energy '(i, qi),
    foldl (λ energy '(j, qj),
      if bool_decide (j ≤ i) then energy
      else if excluded i j (exclude_pairs self) then energy
      else PrimFloat.add energy
             (PrimFloat.div (PrimFloat.mul qi qj) (bond_value i j coords)))
      energy (enumerate (charges self)))
    energy (enumerate (charges self)).

Definition init (coords : ndarray) (charges : list float) (name : string)
    (exclude_pairs : list (list Z)) : t :=
  let self := Make coords charges name exclude_pairs 0%float in
  Make coords charges name exclude_pairs (get_energy self coords false).

End WithBond.

End CoulombModel.

(** ** Inputs *)

(** One atom whose Hessian has 2^53 in its first diagonal entry. *)
Definition stiff : HarmonicModel.t :=
  let unset := NdArray [0] [] in
  HarmonicModel.Make
    (NdArray [1; 3] [0; 0; 0]%float)
    (NdArray [1; 3] [0; 0; 0]%float)
    (NdArray [1; 3; 1; 3] [0x1p53; 0; 0; 0; 1; 0; 0; 0; 1]%float)
    0%float 0x1p-10%float unset unset unset unset.



End F64.

(** * Facts about the numpy fragment *)

Module NpFacts.

Lemma rbind_ok {A B} (m : result A) (k : A → result B) a :
  m = Ok a → rbind m k = k a.
Proof. by intros ->. Qed.

(** ** Reshaping *)

Lemma reshape_ok a s :
  size_of s = length (data a) → reshape a s = Ok (NdArray s (data a)).
Proof. intros H. unfold reshape. by rewrite decide_True. Qed.

Lemma reshape_raise a s :
  size_of s ≠ length (data a) → reshape a s = Raise ValueError.
Proof. intros H. unfold reshape. by rewrite decide_False. Qed.

(** ** Tabulated matrices *)

Lemma tabulate2_S n m f :
  tabulate2 (S n) m f = tabulate2 n m f ++ (f n <$> seq 0 m).
Proof.
  unfold tabulate2. rewrite seq_S, bind_app. simpl.
  by rewrite app_nil_r.
Qed.

Lemma length_tabulate2 n m f : length (tabulate2 n m f) = n * m.
Proof.
  induction n as [|n IH]; [done|].
  rewrite tabulate2_S, length_app, IH, length_fmap, length_seq. lia.
Qed.

Lemma lookup_tabulate2 n m f i j :
  i < n → j < m → tabulate2 n m f !! (i * m + j) = Some (f i j).
Proof.
  induction n as [|n IH]; intros Hi Hj; [lia|].
  rewrite tabulate2_S.
  destruct (decide (i = n)) as [->|Hne].
  - rewrite lookup_app_r by (rewrite length_tabulate2; lia).
    rewrite length_tabulate2.
    replace (n * m + j - n * m) with j by lia.
    rewrite list_lookup_fmap, lookup_seq_lt by done. done.
  - rewrite lookup_app_l by (rewrite length_tabulate2; nia).
    apply IH; lia.
Qed.

Lemma flat_tabulate2 n m f i j :
  i < n → j < m → flat (tabulate2 n m f) (i * m + j) = f i j.
Proof. intros. unfold flat. by rewrite lookup_tabulate2. Qed.

(** Two lists of [n * m] entries that agree entry by entry are equal. *)
Lemma list_eq_2d (n m : nat) (l1 l2 : list Qc) :
  length l1 = n * m → length l2 = n * m →
  (∀ i j, i < n → j < m → flat l1 (i * m + j) = flat l2 (i * m + j)) →
  l1 = l2.
Proof.
  intros H1 H2 H. apply list_eq_same_length with (n * m); [done..|].
  intros k x y Hk Hx Hy.
  assert (0 < m) by (destruct m; lia).
  specialize (H (k / m) (k mod m)).
  assert (k / m * m + k mod m = k) as Hkm
    by (pose proof (Nat.div_mod k m); lia).
  rewrite Hkm in H. unfold flat in H. rewrite Hx, Hy in H. simpl in H.
  apply H.
  - apply Nat.Div0.div_lt_upper_bound. lia.
  - apply Nat.mod_upper_bound. lia.
Qed.

(** ** Sums *)





(** ** Broadcasting two arrays of one shape *)

Lemma pad_same s : pad (length s) s = s.
Proof. unfold pad. by rewrite Nat.sub_diag. Qed.

Lemma bshape_same s : bshape s s = Some s.
Proof.
  induction s as [|a s IH]; [done|]. simpl. rewrite IH.
  by rewrite decide_True.
Qed.

Lemma chunks_length {A} k n (d : list A) :
  length d = n * k → Forall (λ c, length c = k) (chunks k n d).
Proof.
  revert d. induction n as [|n IH]; intros d Hd; simpl; [constructor|].
  constructor.
  - rewrite length_take. lia.
  - apply IH. rewrite length_drop. lia.
Qed.

Lemma chunks_concat {A} k n (d : list A) :
  length d = n * k → concat (chunks k n d) = d.
Proof.
  revert d. induction n as [|n IH]; intros d Hd; simpl.
  - by destruct d.
  - rewrite IH by (rewrite length_drop; lia). apply take_drop.
Qed.

Lemma expand_same s d : length d = size_of s → expand s s d = d.
Proof.
  revert d. induction s as [|a s IH]; intros d Hd; [done|].
  simpl in *. rewrite decide_True by done.
  rewrite <- (chunks_concat (size_of s) a d) at 2 by lia.
  f_equal. rewrite <- (list_fmap_id (chunks _ _ _)) at 2.
  apply Forall_fmap_ext_1.
  eapply Forall_impl; [apply chunks_length; lia|].
  intros c Hc. by apply IH.
Qed.

Lemma broadcast2_same f a b :
  wf a → wf b → shape a = shape b →
  broadcast2 f a b = Ok (NdArray (shape a) (zip_with f (data a) (data b))).
Proof.
  intros Ha Hb Hs. unfold broadcast2. rewrite <- Hs, Nat.max_id, pad_same.
  rewrite bshape_same, !expand_same; [done|by rewrite Hs|done].
Qed.

(** ** Reading the flat data *)

Lemma flat_lookup (d : list Qc) k x : d !! k = Some x → flat d k = x.
Proof. unfold flat. by intros ->. Qed.



Lemma flat_zip_with f (a b : list Qc) k :
  k < length a → k < length b →
  flat (zip_with f a b) k = f (flat a k) (flat b k).
Proof.
  intros Ha Hb. unfold flat. rewrite lookup_zip_with.
  destruct (lookup_lt_is_Some_2 a k Ha) as [x ->].
  by destruct (lookup_lt_is_Some_2 b k Hb) as [y ->].
Qed.


Lemma flat_fmap (f : Qc → Qc) d k :
  k < length d → flat (f <$> d) k = f (flat d k).
Proof.
  intros Hk. unfold flat. rewrite list_lookup_fmap.
  by destruct (lookup_lt_is_Some_2 d k Hk) as [x ->].
Qed.

Lemma flat_replicate n (x : Qc) k : k < n → flat (replicate n x) k = x.
Proof. intros. apply flat_lookup. by apply lookup_replicate_2. Qed.

Lemma list_eq_flat n (l1 l2 : list Qc) :
  length l1 = n → length l2 = n →
  (∀ k, k < n → flat l1 k = flat l2 k) → l1 = l2.
Proof.
  intros H1 H2 H. apply list_eq_same_length with n; [done..|].
  intros k x y Hk Hx Hy. specialize (H k Hk). unfold flat in H.
  by rewrite Hx, Hy in H.
Qed.

(** ** Products with operands of the expected ranks *)




End NpFacts.

Import NpFacts.

(** Side conditions on shapes and lengths. *)
Ltac sizes :=
  unfold wf in *; cbn [shape data] in *;
  repeat match goal with H : shape _ = _ |- _ => rewrite H in * end;
  unfold size_of in *; cbn [foldr] in *;
  repeat rewrite ?length_zip_with, ?length_fmap, ?length_seq,
    ?length_replicate, ?length_tabulate2, ?length_insert;
  try (lia || congruence).

(** * [HarmonicModel]: the quadratic expansion *)

Section Harmonic_expansion.
Import HarmonicModel Spec.







(** C8: [get_hessian] returns the stored reference Hessian whatever the
    queried coordinates are. *)
Theorem get_hessian_constant self coords coords' :
  get_hessian self coords = hess self ∧
  get_hessian self coords = get_hessian self coords'.
Proof. split; reflexivity. Qed.

End Harmonic_expansion.

(** * [HarmonicModel.get_energy] on an array of another length *)

Section Harmonic_shape_mismatch.
Import HarmonicModel Spec.

Lemma result_Qc_eq (m : result Qc) (x : Qc) :
  match m with Ok y => Qeq y x | Raise _ => False end → m = Ok x.
Proof. destruct m; [|done]. intros. f_equal. by apply Qc_is_canon. Qed.

Lemma length_concat_replicate {A} n (d : list A) :
  length (concat (replicate n d)) = n * length d.
Proof.
  induction n as [|n IH]; [done|]. simpl. rewrite length_app, IH. lia.
Qed.

Lemma expand_repeat a b s t d :
  a ≠ b → expand (a :: s) (b :: t) d = concat (replicate b (expand s t d)).
Proof. intros. cbn [expand]. by rewrite decide_False. Qed.

(** [coords - coords0] for M×3 and N×3 arrays with M ≠ N: the shapes do not
    broadcast unless one of them has a single row, and then the difference
    has the rows of the other. *)
Lemma sub_rows M N (c c0 : list Qc) :
  M ≠ N → M ≠ 1 → length c = M * 3 → length c0 = N * 3 →
  match sub (NdArray [M; 3] c) (NdArray [N; 3] c0) with
  | Ok d => N = 1 ∧ length (data d) = M * 3
  | Raise e => e = ValueError
  end.
Proof.
  intros HMN HM Hc Hc0. unfold sub, broadcast2. cbn [shape data length].
  rewrite Nat.max_id. unfold pad. cbn [length Nat.sub replicate app bshape].
  rewrite (decide_True (P := 3 = 3)) by done.
  rewrite (decide_False (P := M = N)), (decide_False (P := M = 1)) by done.
  destruct (decide (N = 1)) as [->|HN]; [|done].
  split; [done|]. cbn [data].
  rewrite expand_same by sizes.
  rewrite (expand_repeat 1 M) by done.
  rewrite (expand_same [3]) by sizes.
  rewrite length_zip_with, length_concat_replicate. lia.
Qed.

(** C4, as the code has it: [get_energy] raises, at the subtraction or at
    the reshape that follows it, when the queried array has M ≠ N rows and
    M ≠ 1; the exception is numpy's [ValueError] and it reaches the
    caller. *)
Theorem get_energy_shape_mismatch self N M coords :
  wf (coords0 self) → shape (coords0 self) = [N; 3] →
  wf coords → shape coords = [M; 3] →
  M ≠ N → M ≠ 1 →
  get_energy self coords = Raise ValueError.
Proof.
  intros Hc Hcs Hw Hs HMN HM.
  unfold get_energy, len. rewrite Hcs. cbn [rbind].
  destruct coords as [sc c], (coords0 self) as [s0 c0]. cbn in Hcs, Hs.
  subst sc s0.
  pose proof (sub_rows M N c c0 HMN HM) as Hsub.
  destruct (sub _ _) as [d|e]; cbn [rbind].
  - destruct Hsub as [-> Hd]; [sizes..|].
    rewrite reshape_raise by sizes. done.
  - rewrite Hsub by sizes. done.
Qed.

Lemma get_energy_shape_mismatch_witness :
  get_energy Examples.harmonic2 Examples.coords3 = Raise ValueError.
Proof.
  apply (get_energy_shape_mismatch Examples.harmonic2 2 3 Examples.coords3);
    first [reflexivity | lia].
Defined.

(** A one-row array queried on the two-atom model is broadcast against the
    reference: no exception, and an energy comes back. *)
Lemma get_energy_broadcasts_one_row :
  harmonic_shapes Examples.harmonic2 2 ∧
  wf Examples.coords1 ∧ shape Examples.coords1 = [1; 3] ∧
  get_energy Examples.harmonic2 Examples.coords1 = Ok (Examples.q 27) ∧
  ¬ raises (get_energy Examples.harmonic2 Examples.coords1).
Proof.
  assert (get_energy Examples.harmonic2 Examples.coords1 = Ok (Examples.q 27))
    as E by (apply result_Qc_eq; vm_compute; reflexivity).
  repeat split; try reflexivity; [done|].
  rewrite E. by intros [e ?].
Qed.

End Harmonic_shape_mismatch.

(** * [HarmonicModel.get_constrained_hess] *)

Section Harmonic_constrained.
Import HarmonicModel Spec.

Lemma norm_index_ok n i :
  (0 ≤ i < Z.of_nat n)%Z → norm_index n i = Ok (Z.to_nat i).
Proof. intros. unfold norm_index. by rewrite decide_True. Qed.

Lemma flat_insert (d : list Qc) k k' v :
  k < length d →
  flat (<[k := v]> d) k' = if decide (k = k') then v else flat d k'.
Proof.
  intros Hk. unfold flat. destruct (decide (k = k')) as [<-|Hne].
  - by rewrite list_lookup_insert_eq.
  - by rewrite list_lookup_insert_ne.
Qed.

Lemma index_inj n a b a' b' :
  b < n → b' < n → a * n + b = a' * n + b' → a = a' ∧ b = b'.
Proof.
  intros Hb Hb' E.
  assert (a = a') as -> by (destruct (lt_eq_lt_dec a a') as [[?|?]|?]; nia).
  split; [done|lia].
Qed.

(** The loop [for i in free_indices: D[i,i] = 0.0]. *)
Lemma zero_diagonal_loop n (free : list Z) (d : list Qc) :
  Forall (λ i, 0 ≤ i < Z.of_nat n)%Z free → length d = n * n →
  ∃ d', for_each free (λ i D, setitem2 D i i 0%Qc) (NdArray [n; n] d)
        = Ok (NdArray [n; n] d') ∧
        length d' = n * n ∧
        ∀ a b, a < n → b < n →
          flat d' (a * n + b) =
            if decide (a = b ∧ Z.of_nat a ∈ free) then 0%Qc
            else flat d (a * n + b).
Proof.
  intros Hfree. revert d.
  induction Hfree as [|i free Hi Hfree IH]; intros d Hd.
  - exists d. repeat split; [done|]. intros a b _ _.
    rewrite decide_False; [done|]. intros [_ H]. by apply elem_of_nil in H.
  - cbn [for_each]. unfold setitem2 at 1. cbn [shape data].
    rewrite norm_index_ok by done. cbn [rbind].
    assert (∃ r, i = Z.of_nat r ∧ r < n) as (r & -> & Hr)
      by (exists (Z.to_nat i); lia).
    rewrite Nat2Z.id.
    destruct (IH (<[r * n + r := 0%Qc]> d))
      as (d' & Hrun & Hlen & Hd'); [by rewrite length_insert|].
    exists d'. repeat split; [done..|].
    intros a b Ha Hb. rewrite Hd' by done.
    rewrite flat_insert by nia.
    destruct (decide (a = b ∧ Z.of_nat a ∈ free)) as [[-> Hin]|Hn].
    + rewrite decide_True; [done|]. split; [done|]. by right.
    + destruct (decide (r * n + r = a * n + b)) as [E|E].
      * destruct (index_inj n r r a b) as [<- <-]; [done..|].
        rewrite decide_True; [done|]. split; [done|]. by left.
      * rewrite decide_False; [done|]. intros [-> [->%Nat2Z.inj|Hin]%elem_of_cons].
        -- by apply E.
        -- by apply Hn.
Qed.

(** Entry by entry, the constrained Hessian is the reference Hessian plus
    the penalty. *)
Lemma get_constrained_hess_entries self N free spring :
  harmonic_shapes self N →
  Forall (λ i, 0 ≤ i < Z.of_nat (3 * N))%Z free →
  ∃ ch, get_constrained_hess self free spring = Ok ch ∧
        shape ch = [N; 3; N; 3] ∧
        length (data ch) = 3 * N * (3 * N) ∧
        ∀ a b, a < 3 * N → b < 3 * N →
          flat (data ch) (a * (3 * N) + b) =
            (flat (data (hess self)) (a * (3 * N) + b)
             + penalty free spring a b)%Qc.
Proof.
  intros (Hc & Hcs & Hg & Hgs & Hh & Hhs) Hfree.
  unfold get_constrained_hess, len. rewrite Hcs. cbn [rbind].
  unfold scale, identity. cbn [shape data].
  edestruct (zero_diagonal_loop (3 * N) free) as (d' & -> & Hlen & Hd');
    [done| |].
  { rewrite length_fmap. apply length_tabulate2. }
  cbn [rbind]. rewrite reshape_ok by sizes. cbn [rbind data].
  unfold add. rewrite broadcast2_same by sizes.
  eexists. split; [done|]. cbn [shape data].
  split; [done|]. split; [sizes|].
  intros a b Ha Hb.
  rewrite flat_zip_with by (sizes; nia). f_equal.
  rewrite Hd' by done. unfold penalty.
  rewrite flat_fmap by (rewrite length_tabulate2; nia).
  rewrite flat_tabulate2 by done.
  destruct (decide (a = b)) as [->|Hab].
  - destruct (decide (Z.of_nat b ∈ free)).
    + by rewrite decide_True.
    + rewrite decide_False by tauto. ring.
  - rewrite decide_False by tauto. ring.
Qed.

(** C5, as the code computes it: the constrained Hessian is, entry by
    entry, the stored reference Hessian plus a diagonal matrix with 0 at
    every free index and [spring] at every fixed one.  Off the diagonal and
    at a free index the entry is the stored one; at a fixed index it is the
    sum of the stored entry and [spring]. *)
Theorem constrained_hess_entrywise self N free spring :
  harmonic_shapes self N →
  Forall (λ i, 0 ≤ i < Z.of_nat (3 * N))%Z free →
  ∃ ch, get_constrained_hess self free spring = Ok ch ∧
        shape ch = shape (hess self) ∧
        ∀ a b, a < 3 * N → b < 3 * N →
          let h := flat (data (hess self)) (a * (3 * N) + b) in
          let c := flat (data ch) (a * (3 * N) + b) in
          (a ≠ b → c = h) ∧
          (a = b → Z.of_nat a ∈ free → c = h) ∧
          (a = b → Z.of_nat a ∉ free → c = (h + spring)%Qc).
Proof.
  intros Hm Hfree.
  destruct (get_constrained_hess_entries self N free spring Hm Hfree)
    as (ch & Hrun & Hshape & _ & Hentries).
  exists ch. split; [done|]. split; [destruct Hm as (_&_&_&_&_&->); done|].
  intros a b Ha Hb h c. subst h c. rewrite Hentries by done.
  unfold penalty. repeat split.
  - intros Hab. rewrite decide_False by done. ring.
  - intros -> Hin. rewrite !decide_True by done. ring.
  - intros -> Hin. by rewrite decide_True, decide_False.
Qed.

Lemma constrained_hess_entrywise_witness :
  let self := Examples.harmonic2 in
  let free := Examples.free_some in
  let spring := Examples.q 10 in
  ∃ ch, get_constrained_hess self free spring = Ok ch ∧
        shape ch = shape (hess self) ∧
        ∀ a b, a < 3 * 2 → b < 3 * 2 →
          let h := flat (data (hess self)) (a * (3 * 2) + b) in
          let c := flat (data ch) (a * (3 * 2) + b) in
          (a ≠ b → c = h) ∧
          (a = b → Z.of_nat a ∈ free → c = h) ∧
          (a = b → Z.of_nat a ∉ free → c = (h + spring)%Qc).
Proof.
  apply (constrained_hess_entrywise Examples.harmonic2 2 Examples.free_some
           (Examples.q 10)).
  - repeat split; reflexivity.
  - repeat constructor; lia.
Defined.

(** In binary64 the difference from the stored Hessian at a fixed index
    need not be [spring]: with 2^53 stored at [0,0], spring 1 and index 0
    fixed, the sum rounds back to 2^53 and the difference is 0. *)
Lemma constrained_hess_difference_rounds :
  ∃ ch,
    F64.HarmonicModel.get_constrained_hess F64.stiff [1]%Z 1%float = Ok ch ∧
    F64.shape ch = F64.shape (F64.HarmonicModel.hess F64.stiff) ∧
    F64.flat (F64.data ch) 0 = 0x1p53%float ∧
    PrimFloat.sub (F64.flat (F64.data ch) 0)
      (F64.flat (F64.data (F64.HarmonicModel.hess F64.stiff)) 0)
    = 0%float ∧
    PrimFloat.eqb
      (PrimFloat.sub (F64.flat (F64.data ch) 0)
         (F64.flat (F64.data (F64.HarmonicModel.hess F64.stiff)) 0))
      1%float = false.
Proof.
  eexists. split; [vm_compute; reflexivity|].
  repeat split; vm_compute; reflexivity.
Qed.

End Harmonic_constrained.

(** * [HarmonicModel]: the pseudo-inverse *)

Section Harmonic_pseudo_inverse.
Import HarmonicModel Spec.

Lemma enumerate_snoc {A} (l : list A) x :
  enumerate (l ++ [x]) = enumerate l ++ [(length l, x)].
Proof.
  unfold enumerate. rewrite length_app, Nat.add_1_r, seq_S. simpl.
  rewrite zip_with_app by (by rewrite length_seq). done.
Qed.

Lemma flat_app_l (l1 l2 : list Qc) k :
  k < length l1 → flat (l1 ++ l2) k = flat l1 k.
Proof. intros. unfold flat. by rewrite lookup_app_l. Qed.

Lemma flat_snoc (l : list Qc) x : flat (l ++ [x]) (length l) = x.
Proof.
  unfold flat. rewrite lookup_app_r, Nat.sub_diag by done. done.
Qed.




Section WithEigh.

Variable eigh : nat → list Qc → list Qc * list Qc.




End WithEigh.



Section WithEigh.

Variable eigh : nat → list Qc → list Qc * list Qc.

(** What a successful [diagonalize_hess] has computed: the same steps that
    [get_constrained_ihess] runs on the constrained Hessian. *)
Lemma diagonalize_hess_inv self self' :
  diagonalize_hess eigh self = Ok self' →
  coords0 self' = coords0 self ∧ gradient self' = gradient self ∧
  hess self' = hess self ∧ ridge self' = ridge self ∧
  reference self' = reference self ∧
  ∀ free spring,
    get_constrained_hess self' free spring = Ok (hess self') →
    get_constrained_ihess eigh self' free spring = Ok (ihess self').
Proof.
  unfold diagonalize_hess. intros Hrun.
  destruct (len (coords0 self)) as [Natoms|] eqn:Hlen; [|done].
  cbn [rbind] in Hrun.
  destruct (reshape (hess self) _) as [H|] eqn:HH; [|done].
  cbn [rbind] in Hrun.
  destruct (linalg_eigh eigh H) as [[ev evc]|] eqn:Heig; [|done].
  cbn [rbind] in Hrun.
  destruct (invert_evals (ridge self) ev) as [iev|] eqn:Hinv; [|done].
  cbn [rbind] in Hrun.
  destruct (recompose evc iev) as [P|] eqn:Hrec; [|done].
  cbn [rbind] in Hrun.
  destruct (reshape P _) as [ih|] eqn:Hih; [|done].
  cbn [rbind] in Hrun. injection Hrun as <-. cbn.
  repeat split. intros free spring Hch.
  unfold get_constrained_ihess. cbn [HarmonicModel.coords0].
  rewrite Hlen. cbn [rbind]. rewrite Hch. cbn [rbind HarmonicModel.hess].
  rewrite HH. cbn [rbind]. rewrite Heig. cbn [rbind HarmonicModel.ridge].
  rewrite Hinv. cbn [rbind]. rewrite Hrec. cbn [rbind]. done.
Qed.

(** C10: with every degree of freedom free, the penalty vanishes:
    [get_constrained_hess] returns the stored Hessian and
    [get_constrained_ihess] the pseudo-inverse cached at construction. *)
Theorem all_free_is_unconstrained coords0 gradient hess reference ridge
    self N free spring :
  init eigh coords0 gradient hess reference ridge = Ok self →
  harmonic_shapes self N →
  (∀ i, i ∈ free ↔ (0 ≤ i < Z.of_nat (3 * N))%Z) →
  get_constrained_hess self free spring = Ok (HarmonicModel.hess self) ∧
  get_constrained_ihess eigh self free spring = Ok (ihess self).
Proof.
  intros Hinit Hm Hfree.
  assert (get_constrained_hess self free spring = Ok (HarmonicModel.hess self))
    as Hch.
  { destruct (get_constrained_hess_entries self N free spring Hm)
      as (ch & -> & Hshape & Hlen & Hentries).
    { apply Forall_forall. intros i Hi. by apply Hfree. }
    destruct Hm as (_ & _ & _ & _ & Hh & Hhs). f_equal.
    destruct ch as [sc dc], (HarmonicModel.hess self) as [sh dh].
    cbn [shape data] in *. subst sc sh. f_equal.
    apply (list_eq_2d (3 * N) (3 * N)); [done|sizes|].
    intros a b Ha Hb. rewrite Hentries by done. unfold penalty.
    destruct (decide (a = b)); [|ring].
    rewrite decide_True by (apply Hfree; lia). ring. }
  split; [done|].
  by apply (diagonalize_hess_inv _ _ Hinit).
Qed.

End WithEigh.

Lemma harmonic2_built_ok :
  init Examples.diag_eigh Examples.coords2 Examples.gradient2 Examples.hess2
    (Examples.q 7) (Examples.q 1) = Ok Examples.harmonic2_built.
Proof. vm_compute. reflexivity. Qed.

Lemma all_free_is_unconstrained_witness :
  let self := Examples.harmonic2_built in
  get_constrained_hess self Examples.free_all (Examples.q 10)
  = Ok (hess self) ∧
  get_constrained_ihess Examples.diag_eigh self Examples.free_all (Examples.q 10)
  = Ok (ihess self).
Proof.
  apply (all_free_is_unconstrained Examples.diag_eigh Examples.coords2
           Examples.gradient2 Examples.hess2 (Examples.q 7) (Examples.q 1)
           Examples.harmonic2_built 2 Examples.free_all (Examples.q 10)).
  - exact harmonic2_built_ok.
  - repeat split; reflexivity.
  - intros i. unfold Examples.free_all.
    rewrite !elem_of_cons, elem_of_nil. lia.
Defined.

End Harmonic_pseudo_inverse.

(** * Loops and exclusion lists *)

Section Loops.
Import Spec.

Lemma enumerate_seq (l : list Qc) :
  enumerate l = (λ i, (i, flat l i)) <$> seq 0 (length l).
Proof.
  induction l as [|x l IH] using rev_ind; [done|].
  rewrite enumerate_snoc, IH, length_app, Nat.add_1_r, seq_S, fmap_app.
  cbn [fmap list_fmap]. rewrite flat_snoc. f_equal.
  apply list_fmap_ext. intros k i [-> Hk]%lookup_seq.
  by rewrite flat_app_l by lia.
Qed.

Lemma sumq_list_app l1 l2 :
  sumq_list (l1 ++ l2) = (sumq_list l1 + sumq_list l2)%Qc.
Proof.
  unfold sumq_list.
  induction l1 as [|x l1 IH]; cbn [app foldr]; [ring|].
  rewrite IH. ring.
Qed.

Lemma filter_ext_in {A} (P Q : A → Prop) `{∀ x, Decision (P x)}
    `{∀ x, Decision (Q x)} (l : list A) :
  (∀ x, x ∈ l → P x ↔ Q x) → filter P l = filter Q l.
Proof.
  induction l as [|x l IH]; intros HPQ; [done|].
  rewrite !filter_cons.
  rewrite IH by (intros y Hy; apply HPQ; by right).
  destruct (decide (P x)) as [HP|HP], (decide (Q x)) as [HQ|HQ];
    try done; exfalso; apply (HPQ x) in HP || apply (HPQ x) in HQ;
    (done || by left).
Qed.

Lemma foldl_ext_in {A B} (f g : A → B → A) (l : list B) a :
  (∀ a x, x ∈ l → f a x = g a x) → foldl f a l = foldl g a l.
Proof.
  revert a. induction l as [|x l IH]; intros a Hfg; [done|].
  cbn. rewrite Hfg by (by left). apply IH. intros; apply Hfg. by right.
Qed.

Lemma for_each_ext_in {A S} (f g : A → S → result S) (l : list A) s :
  (∀ x s, x ∈ l → f x s = g x s) → for_each l f s = for_each l g s.
Proof.
  revert s. induction l as [|x l IH]; intros s Hfg; [done|].
  cbn. rewrite Hfg by (by left). destruct (g x s); cbn; [|done].
  apply IH. intros; apply Hfg. by right.
Qed.

Lemma elem_of_enumerate {A} (l : list A) i x :
  (i, x) ∈ enumerate l → i < length l.
Proof.
  unfold enumerate. intros (k & Hk)%list_elem_of_lookup.
  apply lookup_zip_with_Some in Hk as (i' & x' & [= <- <-] & Hi & _).
  apply lookup_seq in Hi. lia.
Qed.

(** ** Exclusion entries *)

Lemma pair_in_swap_entry i j a b pre post :
  pair_in i j (pre ++ [a; b] :: post) || pair_in j i (pre ++ [a; b] :: post)
  = pair_in i j (pre ++ [b; a] :: post) || pair_in j i (pre ++ [b; a] :: post).
Proof.
  unfold pair_in. apply eq_true_iff_eq.
  rewrite !orb_true_iff, !bool_decide_eq_true.
  rewrite !elem_of_app, !elem_of_cons.
  split; intros [[?|[[= <- <-]|?]]|[?|[[= <- <-]|?]]]; auto 10.
Qed.

Lemma excluded_swap_entry i j a b pre post :
  excluded i j (pre ++ [a; b] :: post) = excluded i j (pre ++ [b; a] :: post).
Proof. apply pair_in_swap_entry. Qed.

Lemma excluded_drop_entry N i j a b pre post :
  out_of_range N a b → i < N → j < N →
  excluded i j (pre ++ [a; b] :: post) = excluded i j (pre ++ post).
Proof.
  intros Hout Hi Hj. unfold excluded, pair_in. apply eq_true_iff_eq.
  rewrite !orb_true_iff, !bool_decide_eq_true.
  rewrite !elem_of_app, !elem_of_cons.
  unfold out_of_range in Hout.
  split; [|tauto].
  intros [[?|[[= <- <-]|?]]|[?|[[= <- <-]|?]]]; auto; lia.
Qed.

End Loops.

(** * [CoulombModel] *)

Section Coulomb.
Import CoulombModel Spec.

Variable bond : nat → nat → IC.t.

Lemma excluded_false_iff i j (ex : list (list Z)) :
  excluded i j ex = false ↔
    ([Z.of_nat i; Z.of_nat j] ∉ ex) ∧ ([Z.of_nat j; Z.of_nat i] ∉ ex).
Proof.
  unfold excluded, pair_in.
  by rewrite orb_false_iff, !bool_decide_eq_false.
Qed.

(** The inner loop adds, in the order of the loop, the terms of the pairs
    it does not skip. *)
Lemma inner_loop_fold ex coords (qs : list Qc) i (js : list nat) e :
  foldl (λ energy '(j, qj),
           if bool_decide (j ≤ i) then energy
           else if excluded i j ex then energy
           else (energy + flat qs i * qj / IC.value (bond i j) coords)%Qc)
        e ((λ j, (j, flat qs j)) <$> js)
  = foldl Qcplus e
      (coulomb_pair bond qs coords
         <$> filter (λ p, (p.1 < p.2)%nat ∧
                          ([Z.of_nat p.1; Z.of_nat p.2] ∉ ex) ∧
                          ([Z.of_nat p.2; Z.of_nat p.1] ∉ ex))
               (pair i <$> js)).
Proof.
  revert e. induction js as [|j js IH]; intros e; [done|].
  rewrite !fmap_cons. cbn [foldl]. rewrite IH.
  case_bool_decide as Hji.
  - rewrite filter_cons_False by (cbn; lia). done.
  - destruct (excluded i j ex) eqn:Hex.
    + rewrite filter_cons_False; [done|]. cbn [fst snd].
      intros (_ & Hn). apply excluded_false_iff in Hn. congruence.
    + rewrite filter_cons_True; [done|]. cbn [fst snd].
      split; [lia|]. by apply excluded_false_iff.
Qed.

Lemma outer_loop_fold ex coords (qs : list Qc) (ixs : list nat) e :
  foldl (λ energy '(i, qi),
           foldl (λ energy '(j, qj),
                    if bool_decide (j ≤ i) then energy
                    else if excluded i j ex then energy
                    else (energy + qi * qj / IC.value (bond i j) coords)%Qc)
                 energy (enumerate qs))
        e ((λ i, (i, flat qs i)) <$> ixs)
  = foldl Qcplus e
      (coulomb_pair bond qs coords
         <$> filter (λ p, (p.1 < p.2)%nat ∧
                          ([Z.of_nat p.1; Z.of_nat p.2] ∉ ex) ∧
                          ([Z.of_nat p.2; Z.of_nat p.1] ∉ ex))
               (i ← ixs; pair i <$> seq 0 (length qs))).
Proof.
  revert e. induction ixs as [|i ixs IH]; intros e; [done|].
  rewrite fmap_cons. cbn [foldl]. rewrite IH.
  rewrite enumerate_seq, inner_loop_fold.
  by rewrite bind_cons, filter_app, fmap_app, foldl_app.
Qed.

(** What [get_energy] accumulates, and from where. *)
Lemma get_energy_fold self coords sh :
  get_energy bond self coords sh
  = foldl Qcplus (if sh then 0 - shift self else 0)%Qc
      (coulomb_pair bond (charges self) coords
         <$> unexcluded_pairs (length (charges self)) (exclude_pairs self)).
Proof.
  unfold get_energy, unexcluded_pairs.
  pose proof (outer_loop_fold (exclude_pairs self) coords (charges self)
                (seq 0 (length (charges self)))) as Hfold.
  rewrite <- enumerate_seq in Hfold. apply Hfold.
Qed.


(** [get_energy] reads the exclusion list only through the membership test
    on index pairs below the number of charges. *)
Lemma get_energy_exclusions self self' coords sh :
  charges self' = charges self → shift self' = shift self →
  (∀ i j, i < length (charges self) → j < length (charges self) →
     excluded i j (exclude_pairs self') = excluded i j (exclude_pairs self)) →
  get_energy bond self' coords sh = get_energy bond self coords sh.
Proof.
  intros Hq Hs Hex. rewrite !get_energy_fold, Hs.
  unfold unexcluded_pairs. rewrite Hq. do 2 f_equal.
  apply filter_ext_in. intros [i j] Hij. cbn [fst snd].
  apply list_elem_of_bind in Hij as (i' & Hij & Hi%elem_of_seq).
  apply list_elem_of_fmap in Hij as (j' & [= <- <-] & Hj%elem_of_seq).
  rewrite <- !excluded_false_iff, Hex by lia. done.
Qed.

Lemma init_exclusions coords charges name ex ex' c sh :
  (∀ i j, i < length charges → j < length charges →
     excluded i j ex' = excluded i j ex) →
  get_energy bond (init bond coords charges name ex') c sh
  = get_energy bond (init bond coords charges name ex) c sh.
Proof.
  intros Hex. apply get_energy_exclusions; [done| |done].
  unfold init. cbn [shift]. by apply get_energy_exclusions.
Qed.

End Coulomb.

(** * [electrostatics] *)

Section Electrostatics.
Import Spec.

Variable bond : nat → nat → IC.t.

Lemma accumulated_refl sample n st :
  state_shapes n st → accumulated bond sample n [] st st.
Proof.
  intros Hst. split; [done|]. split; intros; cbn; ring.
Qed.

Lemma accumulated_app sample n l1 l2 st st' st'' :
  accumulated bond sample n l1 st st' →
  accumulated bond sample n l2 st' st'' →
  accumulated bond sample n (l1 ++ l2) st st''.
Proof.
  intros (_ & HF1 & HH1) (Hst & HF2 & HH2). split; [done|]. split.
  - intros k Hk. rewrite HF2, HF1 by done.
    rewrite fmap_app, sumq_list_app. ring.
  - intros a b Ha Hb. rewrite HH2, HH1 by done.
    rewrite fmap_app, sumq_list_app. ring.
Qed.

Lemma iadd_same a b :
  wf a → wf b → shape b = shape a →
  iadd a b = Ok (NdArray (shape a) (zip_with Qcplus (data a) (data b))).
Proof.
  intros Ha Hb Hs. unfold iadd, add.
  rewrite broadcast2_same by done. cbn [rbind shape].
  by rewrite decide_True.
Qed.

(** One pass through the body of the inner loop. *)
Lemma accumulate_step sample N i j st :
  bond_shapes bond (coordinates sample) N → i < N → j < N →
  state_shapes (3 * N) st →
  ∃ st', accumulate bond sample i j st = Ok st' ∧
         accumulated bond sample (3 * N) [(i, j)] st st'.
Proof.
  intros Hb Hi Hj (HFs & HFl & HHs & HHl).
  destruct (Hb i j Hi Hj) as (Hg & Hgs & Hh & Hhs).
  destruct st as [F H]. cbn [fst snd] in *.
  unfold accumulate, accumulated, force_term, hess_term. cbn [fst snd].
  set (r := IC.value (bond i j) (coordinates sample)).
  set (g := IC.grad (bond i j) (coordinates sample)) in *.
  set (Hr := IC.hess (bond i j) (coordinates sample)) in *.
  assert (length (data g) = 3 * N) as Hgl by sizes.
  assert (length (data Hr) = 3 * N * (3 * N)) as Hhl by sizes.
  unfold outer, sub. rewrite Hgl.
  rewrite broadcast2_same by (unfold scale; sizes). cbn [rbind].
  rewrite iadd_same by (unfold scale; sizes). cbn [rbind].
  rewrite iadd_same by (unfold scale; sizes). cbn [rbind].
  eexists. split; [reflexivity|]. cbn [fst snd shape data scale].
  split; [repeat split; cbn [fst snd]; sizes|].
  split.
  - intros k Hk. rewrite flat_zip_with by sizes.
    rewrite flat_fmap by sizes.
    cbn [fmap list_fmap sumq_list foldr fst snd]. unfold Qcdiv.
    subst r g. ring.
  - intros a b Ha Hb'. rewrite flat_zip_with by (sizes; nia).
    rewrite flat_fmap by (sizes; nia).
    rewrite flat_zip_with by (sizes; nia).
    rewrite flat_fmap by (sizes; nia).
    rewrite flat_tabulate2 by done.
    cbn [fmap list_fmap sumq_list foldr fst snd]. unfold Qcdiv.
    subst r g Hr. ring.
Qed.

Lemma getitem_ok {A} (l : list A) i :
  i < length l → ∃ x, l !! i = Some x ∧ getitem l i = Ok x.
Proof.
  intros Hi. destruct (lookup_lt_is_Some_2 l i Hi) as [x Hx].
  exists x. unfold getitem. by rewrite Hx.
Qed.

(** The loop over [j], for an atom [i] whose type is not excluded. *)
Lemma inner_loop_accumulated sample exp ext N i (js : list nat) st :
  bond_shapes bond (coordinates sample) N →
  length (ffatypes sample) = N → i < N →
  type_excluded (ffatypes sample) ext i = false →
  Forall (λ j, j < N) js →
  state_shapes (3 * N) st →
  ∃ st',
    for_each js (λ j st,
      tj ←! getitem (ffatypes sample) j;
      if bool_decide (tj ∈ ext) then Ok st
      else if excluded i j exp then Ok st
      else accumulate bond sample i j st) st = Ok st' ∧
    accumulated bond sample (3 * N)
      (filter (λ p, skipped sample exp ext p = false) (pair i <$> js)) st st'.
Proof.
  intros Hb Hty Hi Hti Hjs. revert st.
  induction Hjs as [|j js Hj Hjs IH]; intros st Hst.
  - exists st. split; [done|]. by apply accumulated_refl.
  - cbn [for_each]. rewrite fmap_cons.
    destruct (getitem_ok (ffatypes sample) j) as (tj & Htj & ->); [lia|].
    cbn [rbind].
    assert (skipped sample exp ext (i, j)
            = bool_decide (tj ∈ ext) || excluded i j exp) as Hsk.
    { unfold skipped. cbn [fst snd]. rewrite Hti.
      unfold type_excluded. by rewrite Htj. }
    destruct (bool_decide (tj ∈ ext)) eqn:Htx; cbn [orb] in Hsk.
    { rewrite filter_cons_False by (by rewrite Hsk). by apply IH. }
    destruct (excluded i j exp) eqn:Hex.
    { rewrite filter_cons_False by (by rewrite Hsk). by apply IH. }
    rewrite filter_cons_True by done.
    destruct (accumulate_step sample N i j st Hb Hi Hj Hst)
      as (st1 & -> & Hacc1). cbn [rbind].
    destruct (IH st1) as (st' & Hrun & Hacc); [apply Hacc1|].
    exists st'. split; [done|].
    by apply (accumulated_app _ _ [(i, j)] _ st st1 st').
Qed.

Lemma skipped_type_excluded sample exp ext i (js : list nat) :
  type_excluded (ffatypes sample) ext i = true →
  filter (λ p, skipped sample exp ext p = false) (pair i <$> js) = [].
Proof.
  intros Hti. induction js as [|j js IH]; [done|].
  rewrite fmap_cons, filter_cons_False; [done|].
  unfold skipped. cbn [fst snd]. by rewrite Hti.
Qed.

(** The loop over [i]. *)
Lemma outer_loop_accumulated sample exp ext N (ixs : list nat) st :
  bond_shapes bond (coordinates sample) N →
  length (ffatypes sample) = N →
  Forall (λ i, i < N) ixs →
  state_shapes (3 * N) st →
  ∃ st',
    for_each ixs (λ i st,
      ti ←! getitem (ffatypes sample) i;
      if bool_decide (ti ∈ ext) then Ok st
      else for_each (seq 0 i) (λ j st,
        tj ←! getitem (ffatypes sample) j;
        if bool_decide (tj ∈ ext) then Ok st
        else if excluded i j exp then Ok st
        else accumulate bond sample i j st) st) st = Ok st' ∧
    accumulated bond sample (3 * N)
      (filter (λ p, skipped sample exp ext p = false)
         (i ← ixs; pair i <$> seq 0 i)) st st'.
Proof.
  intros Hb Hty Hixs. revert st.
  induction Hixs as [|i ixs Hi Hixs IH]; intros st Hst.
  - exists st. split; [done|]. by apply accumulated_refl.
  - cbn [for_each]. rewrite bind_cons, filter_app.
    destruct (getitem_ok (ffatypes sample) i) as (ti & Hti & ->); [lia|].
    cbn [rbind].
    destruct (bool_decide (ti ∈ ext)) eqn:Hex; cbn [rbind].
    + rewrite skipped_type_excluded
        by (unfold type_excluded; by rewrite Hti).
      by apply IH.
    + destruct (inner_loop_accumulated sample exp ext N i (seq 0 i) st)
        as (st1 & -> & Hacc1); try done.
      { unfold type_excluded. by rewrite Hti. }
      { apply Forall_forall. intros j Hj%elem_of_seq. lia. }
      cbn [rbind].
      destruct (IH st1) as (st' & Hrun & Hacc); [apply Hacc1|].
      exists st'. split; [done|]. by eapply accumulated_app.
Qed.



(** [electrostatics] reads [exclude_pairs] only through the membership test
    on the index pairs it visits. *)
Lemma electrostatics_exclusions sample exp exp' ext :
  (∀ i j, i < length (ac sample) → j < length (ac sample) →
     excluded i j exp' = excluded i j exp) →
  electrostatics bond sample exp' ext = electrostatics bond sample exp ext.
Proof.
  intros Hex. unfold electrostatics.
  apply for_each_ext_in. intros i st Hi%elem_of_seq.
  destruct (getitem (ffatypes sample) i) as [ti|]; [|done]. cbn [rbind].
  destruct (bool_decide (ti ∈ ext)); [done|].
  apply for_each_ext_in. intros j st' Hj%elem_of_seq.
  rewrite Hex by lia. done.
Qed.

End Electrostatics.

(** * Exclusion lists: order inside an entry, and entries out of range *)

Section Exclusions.
Import Spec.

Lemma axis_bond_shapes :
  bond_shapes Examples.axis_bond (coordinates Examples.sample3) 3.
Proof. intros i j _ _. repeat split; reflexivity. Qed.


(** C7: writing an exclusion entry as [[j, i]] instead of [[i, j]] changes
    neither the energy of the [CoulombModel] built with it nor what
    [electrostatics] returns. *)
Theorem exclusion_order_irrelevant (bond : nat → nat → IC.t)
    coords charges name sample exclude_types (pre post : list (list Z))
    (i j : Z) queried shift :
  CoulombModel.get_energy bond
    (CoulombModel.init bond coords charges name (pre ++ [i; j] :: post))
    queried shift
  = CoulombModel.get_energy bond
      (CoulombModel.init bond coords charges name (pre ++ [j; i] :: post))
      queried shift ∧
  electrostatics bond sample (pre ++ [i; j] :: post) exclude_types
  = electrostatics bond sample (pre ++ [j; i] :: post) exclude_types.
Proof.
  split.
  - apply init_exclusions. intros. apply excluded_swap_entry.
  - apply electrostatics_exclusions. intros. apply excluded_swap_entry.
Qed.

(** C9, as the code has it: an exclusion entry that names an atom index out
    of range is never matched, so [CoulombModel.get_energy] and
    [electrostatics] return what they return without that entry. *)
Theorem out_of_range_exclusion_ignored (bond : nat → nat → IC.t)
    coords charges name sample exclude_types (pre post : list (list Z))
    (a b : Z) queried shift :
  out_of_range (length charges) a b →
  out_of_range (length (ac sample)) a b →
  CoulombModel.get_energy bond
    (CoulombModel.init bond coords charges name (pre ++ [a; b] :: post))
    queried shift
  = CoulombModel.get_energy bond
      (CoulombModel.init bond coords charges name (pre ++ post))
      queried shift ∧
  electrostatics bond sample (pre ++ [a; b] :: post) exclude_types
  = electrostatics bond sample (pre ++ post) exclude_types.
Proof.
  intros Hq Hs. split.
  - apply init_exclusions. intros.
    by apply (excluded_drop_entry (length charges)).
  - apply electrostatics_exclusions. intros.
    by apply (excluded_drop_entry (length (ac sample))).
Qed.

Lemma out_of_range_exclusion_ignored_witness :
  let bond := Examples.axis_bond in
  CoulombModel.get_energy bond
    (CoulombModel.init bond Examples.coords3 Examples.charges3 "m"
       ([[0; 1]] ++ [5; 7] :: [])%Z)
    Examples.coords3 true
  = CoulombModel.get_energy bond
      (CoulombModel.init bond Examples.coords3 Examples.charges3 "m"
         ([[0; 1]] ++ [])%Z)
      Examples.coords3 true ∧
  electrostatics bond Examples.sample3 ([[0; 1]] ++ [5; 7] :: [])%Z []
  = electrostatics bond Examples.sample3 ([[0; 1]] ++ [])%Z [].
Proof.
  apply (out_of_range_exclusion_ignored Examples.axis_bond Examples.coords3
           Examples.charges3 "m" Examples.sample3 [] [[0; 1]]%Z [] 5%Z 7%Z
           Examples.coords3 true).
  - left. cbn. lia.
  - left. cbn. lia.
Defined.

(** On three atoms, the entry [[5, 7]] is accepted without an exception and
    changes nothing. *)
Lemma invalid_exclusion_accepted :
  let bond := Examples.axis_bond in
  out_of_range 3 5 7 ∧
  ¬ raises (electrostatics bond Examples.sample3 [[5; 7]]%Z []) ∧
  electrostatics bond Examples.sample3 [[5; 7]]%Z []
  = electrostatics bond Examples.sample3 [] [] ∧
  CoulombModel.get_energy bond
    (CoulombModel.init bond Examples.coords3 Examples.charges3 "m" [[5; 7]]%Z)
    Examples.coords3 false
  = CoulombModel.get_energy bond
      (CoulombModel.init bond Examples.coords3 Examples.charges3 "m" [])
      Examples.coords3 false.
Proof.
  intros bond.
  split; [left; cbn; lia|].
  split.
  - intros [e He]. vm_compute in He. discriminate He.
  - split; vm_compute; reflexivity.
Qed.

End Exclusions.

(** * Further properties of the models *)

(** ** Sums *)

Section Sums.

Lemma zip_with_plus_zeros (d : list Qc) n :
  length d = n → zip_with Qcplus d (replicate n 0%Qc) = d.
Proof.
  intros Hn. apply list_eq_flat with n; [sizes|done|].
  intros k Hk. rewrite flat_zip_with by sizes.
  rewrite flat_replicate by done. ring.
Qed.

End Sums.

(** ** [ZeroModel] *)

Section Zero_model.

(** The null model is neutral: its energy is 0, and adding its forces or its
    Hessian to those of another model leaves them as they are. *)
Theorem zero_model_neutral (self : ZeroModel.t) coords (g H : ndarray) N :
  shape coords = [N; 3] →
  wf g → shape g = [N; 3] →
  wf H → shape H = [N; 3; N; 3] →
  ZeroModel.get_energy self coords = 0%Qc ∧
  add g (ZeroModel.get_forces self coords) = Ok g ∧
  ∃ z, ZeroModel.get_hessian self coords = Ok z ∧ add H z = Ok H.
Proof.
  intros Hc Hg Hgs HH HHs. split; [done|]. split.
  - unfold ZeroModel.get_forces, add, zeros. rewrite Hc.
    rewrite broadcast2_same by sizes. cbn [data].
    rewrite zip_with_plus_zeros by sizes.
    destruct g as [sg dg]. cbn in *. by subst.
  - unfold ZeroModel.get_hessian, len. rewrite Hc. cbn [rbind].
    eexists. split; [reflexivity|].
    unfold add, zeros. rewrite broadcast2_same by sizes. cbn [data].
    rewrite zip_with_plus_zeros by sizes.
    destruct H as [sH dH]. cbn in *. by subst.
Qed.

Lemma zero_model_neutral_witness :
  let self := ZeroModel.init "ZeroModel" in
  ZeroModel.get_energy self Examples.coords2 = 0%Qc ∧
  add Examples.gradient2 (ZeroModel.get_forces self Examples.coords2)
  = Ok Examples.gradient2 ∧
  ∃ z, ZeroModel.get_hessian self Examples.coords2 = Ok z ∧
       add Examples.hess2 z = Ok Examples.hess2.
Proof.
  apply (zero_model_neutral (ZeroModel.init "ZeroModel") Examples.coords2
           Examples.gradient2 Examples.hess2 2); reflexivity.
Defined.

End Zero_model.

(** ** [HarmonicModel]: shapes that do not agree *)

Section Harmonic_shapes.
Import HarmonicModel Spec.

(** [get_gradient] fails like [get_energy] on an array of M ≠ N rows with
    M ≠ 1: the subtraction or the reshape raises [ValueError]. *)
Theorem get_gradient_shape_mismatch self N M coords :
  wf (coords0 self) → shape (coords0 self) = [N; 3] →
  wf coords → shape coords = [M; 3] →
  M ≠ N → M ≠ 1 →
  get_gradient self coords = Raise ValueError.
Proof.
  intros Hc Hcs Hw Hs HMN HM.
  unfold get_gradient, len. rewrite Hcs. cbn [rbind].
  destruct coords as [sc c], (coords0 self) as [s0 c0]. cbn in Hcs, Hs.
  subst sc s0.
  pose proof (sub_rows M N c c0 HMN HM) as Hsub.
  destruct (sub _ _) as [d|e]; cbn [rbind].
  - destruct Hsub as [-> Hd]; [sizes..|].
    rewrite reshape_raise by sizes. done.
  - rewrite Hsub by sizes. done.
Qed.

Lemma get_gradient_shape_mismatch_witness :
  get_gradient Examples.harmonic2 Examples.coords3 = Raise ValueError.
Proof.
  apply (get_gradient_shape_mismatch Examples.harmonic2 2 3 Examples.coords3);
    first [reflexivity | lia].
Defined.




(** The constructor reshapes the Hessian to 3N×3N first: a Hessian with
    another number of entries makes construction fail with [ValueError]. *)
Theorem init_hessian_size (eigh : nat → list Qc → list Qc * list Qc)
    c0 g H reference ridge N rest :
  shape c0 = N :: rest →
  length (data H) ≠ 3 * N * (3 * N) →
  init eigh c0 g H reference ridge = Raise ValueError.
Proof.
  intros Hc HH. unfold init, diagonalize_hess, len.
  cbn [HarmonicModel.coords0 HarmonicModel.hess]. rewrite Hc. cbn [rbind].
  rewrite reshape_raise by sizes. done.
Qed.

Lemma init_hessian_size_witness :
  init Examples.diag_eigh Examples.coords2 Examples.gradient2
    MoreExamples.hess_small (Examples.q 7) (Examples.q 1)
  = Raise ValueError.
Proof.
  apply (init_hessian_size Examples.diag_eigh Examples.coords2
           Examples.gradient2 MoreExamples.hess_small (Examples.q 7)
           (Examples.q 1) 2 [3]).
  - reflexivity.
  - cbn. lia.
Defined.

(** The constructor never looks at the gradient; a gradient that does not
    have 3N entries shows up when the energy is asked for, as a
    [ValueError] from the reshape. *)
Theorem get_energy_gradient_size self N coords :
  wf (coords0 self) → shape (coords0 self) = [N; 3] →
  wf coords → shape coords = [N; 3] →
  length (data (gradient self)) ≠ 3 * N →
  get_energy self coords = Raise ValueError.
Proof.
  intros Hc Hcs Hw Hs Hg.
  unfold get_energy, len. rewrite Hcs. cbn [rbind].
  unfold sub. rewrite broadcast2_same by congruence. cbn [rbind].
  rewrite reshape_ok by sizes. cbn [rbind].
  rewrite reshape_raise by sizes. done.
Qed.

Lemma get_energy_gradient_size_witness :
  get_energy MoreExamples.harmonic_short Examples.coords2' = Raise ValueError.
Proof.
  apply (get_energy_gradient_size MoreExamples.harmonic_short 2
           Examples.coords2'); first [reflexivity | cbn; lia].
Defined.

End Harmonic_shapes.

(** ** [HarmonicModel.get_constrained_hess]: the subscripts *)

Section Harmonic_free_indices.
Import HarmonicModel Spec Props.

Lemma norm_index_valid n i :
  valid_index n i →
  ∃ r, norm_index n i = Ok r ∧ r < n ∧
       (i = Z.of_nat r ∨ i = (Z.of_nat r - Z.of_nat n)%Z).
Proof.
  unfold valid_index, norm_index. intros Hi.
  destruct (decide (0 ≤ i < Z.of_nat n)%Z).
  - exists (Z.to_nat i). split; [done|]. lia.
  - rewrite decide_True by lia. exists (Z.to_nat (i + Z.of_nat n)).
    split; [done|]. lia.
Qed.

Lemma norm_index_invalid n i :
  ¬ valid_index n i → norm_index n i = Raise IndexError.
Proof.
  unfold valid_index, norm_index. intros Hi.
  rewrite !decide_False by lia. done.
Qed.

(** The loop [for i in free_indices: D[i,i] = 0.0], for subscripts of
    either sign. *)
Lemma zero_diagonal_loop_signed n (free : list Z) (d : list Qc) :
  Forall (valid_index n) free → length d = n * n →
  ∃ d', for_each free (λ i D, setitem2 D i i 0%Qc) (NdArray [n; n] d)
        = Ok (NdArray [n; n] d') ∧
        length d' = n * n ∧
        ∀ a b, a < n → b < n →
          flat d' (a * n + b) =
            if decide (a = b ∧ names n free a) then 0%Qc
            else flat d (a * n + b).
Proof.
  intros Hfree. revert d.
  induction Hfree as [|i free Hi Hfree IH]; intros d Hd.
  - exists d. repeat split; [done|]. intros a b _ _.
    rewrite decide_False; [done|].
    intros [_ [H|H]]; by apply elem_of_nil in H.
  - cbn [for_each]. unfold setitem2 at 1. cbn [shape data].
    destruct (norm_index_valid n i Hi) as (r & -> & Hr & Hir).
    cbn [rbind].
    destruct (IH (<[r * n + r := 0%Qc]> d))
      as (d' & Hrun & Hlen & Hd'); [by rewrite length_insert|].
    exists d'. repeat split; [done..|].
    intros a b Ha Hb. rewrite Hd' by done.
    rewrite flat_insert by nia. unfold names in *.
    destruct (decide (a = b ∧ _)) as [[-> Hin]|Hn].
    + rewrite decide_True; [done|]. split; [done|].
      rewrite !elem_of_cons. tauto.
    + destruct (decide (r * n + r = a * n + b)) as [E|E].
      * destruct (index_inj n r r a b) as [<- <-]; [done..|].
        rewrite decide_True; [done|]. split; [done|].
        rewrite !elem_of_cons. destruct Hir as [->| ->]; auto.
      * rewrite decide_False; [done|].
        rewrite !elem_of_cons. intros [-> [[Hai|Hin]|[Hai|Hin]]].
        -- apply E. f_equal; f_equal; lia.
        -- apply Hn. auto.
        -- apply E. f_equal; f_equal; lia.
        -- apply Hn. auto.
Qed.

Lemma get_constrained_hess_entries_signed self N free spring :
  harmonic_shapes self N →
  Forall (valid_index (3 * N)) free →
  ∃ ch, get_constrained_hess self free spring = Ok ch ∧
        shape ch = [N; 3; N; 3] ∧
        length (data ch) = 3 * N * (3 * N) ∧
        ∀ a b, a < 3 * N → b < 3 * N →
          flat (data ch) (a * (3 * N) + b) =
            (flat (data (hess self)) (a * (3 * N) + b)
             + if decide (a = b)
               then if decide (names (3 * N) free a) then 0 else spring
               else 0)%Qc.
Proof.
  intros (Hc & Hcs & Hg & Hgs & Hh & Hhs) Hfree.
  unfold get_constrained_hess, len. rewrite Hcs. cbn [rbind].
  unfold scale, identity. cbn [shape data].
  edestruct (zero_diagonal_loop_signed (3 * N) free) as (d' & -> & Hlen & Hd');
    [done| |].
  { rewrite length_fmap. apply length_tabulate2. }
  cbn [rbind]. rewrite reshape_ok by sizes. cbn [rbind data].
  unfold add. rewrite broadcast2_same by sizes.
  eexists. split; [done|]. cbn [shape data].
  split; [done|]. split; [sizes|].
  intros a b Ha Hb.
  rewrite flat_zip_with by (sizes; nia). f_equal.
  rewrite Hd' by done.
  rewrite flat_fmap by (rewrite length_tabulate2; nia).
  rewrite flat_tabulate2 by done.
  destruct (decide (a = b)) as [->|Hab].
  - destruct (decide (names (3 * N) free b)).
    + by rewrite decide_True.
    + rewrite decide_False by tauto. ring.
  - rewrite decide_False by tauto. ring.
Qed.

Lemma ndarray_eq_2d n (x y : ndarray) :
  shape x = shape y → length (data x) = n * n → length (data y) = n * n →
  (∀ a b, a < n → b < n →
     flat (data x) (a * n + b) = flat (data y) (a * n + b)) →
  x = y.
Proof.
  destruct x as [sx dx], y as [sy dy]. cbn. intros -> Hx Hy Hxy.
  f_equal. by apply (list_eq_2d n n).
Qed.

(** A negative subscript counts from the end: with subscripts in
    [-3N, 3N), the degree of freedom [a] is freed when the list contains [a]
    or [a - 3N].  The diagonal entry of a freed one, and every entry off the
    diagonal, is the stored one; at every other degree of freedom the
    diagonal entry is the stored one plus [spring]. *)
Theorem constrained_hess_signed_indices self N free spring :
  harmonic_shapes self N →
  Forall (valid_index (3 * N)) free →
  ∃ ch, get_constrained_hess self free spring = Ok ch ∧
        shape ch = shape (hess self) ∧
        ∀ a b, a < 3 * N → b < 3 * N →
          let h := flat (data (hess self)) (a * (3 * N) + b) in
          let c := flat (data ch) (a * (3 * N) + b) in
          (a ≠ b → c = h) ∧
          (a = b → names (3 * N) free a → c = h) ∧
          (a = b → ¬ names (3 * N) free a → c = (h + spring)%Qc).
Proof.
  intros Hm Hfree.
  destruct (get_constrained_hess_entries_signed self N free spring Hm Hfree)
    as (ch & Hrun & Hshape & _ & Hentries).
  exists ch. split; [done|]. split; [destruct Hm as (_&_&_&_&_&->); done|].
  intros a b Ha Hb h c. subst h c. rewrite Hentries by done.
  repeat split.
  - intros Hab. rewrite decide_False by done. ring.
  - intros -> Hin. rewrite !decide_True by done. ring.
  - intros -> Hin. by rewrite decide_True, decide_False.
Qed.

Lemma constrained_hess_signed_indices_witness :
  let self := Examples.harmonic2 in
  let free := MoreExamples.free_negative in
  let spring := Examples.q 10 in
  ∃ ch, get_constrained_hess self free spring = Ok ch ∧
        shape ch = shape (hess self) ∧
        ∀ a b, a < 3 * 2 → b < 3 * 2 →
          let h := flat (data (hess self)) (a * (3 * 2) + b) in
          let c := flat (data ch) (a * (3 * 2) + b) in
          (a ≠ b → c = h) ∧
          (a = b → names (3 * 2) free a → c = h) ∧
          (a = b → ¬ names (3 * 2) free a → c = (h + spring)%Qc).
Proof.
  apply (constrained_hess_signed_indices Examples.harmonic2 2
           MoreExamples.free_negative (Examples.q 10)).
  - repeat split; reflexivity.
  - repeat constructor; cbn; lia.
Defined.

(** The constrained Hessian depends only on which degrees of freedom the
    list names: order, repetitions and the sign convention of the subscripts
    do not matter. *)
Theorem constrained_hess_index_set self N free free' spring :
  harmonic_shapes self N →
  Forall (valid_index (3 * N)) free →
  Forall (valid_index (3 * N)) free' →
  (∀ a, a < 3 * N → names (3 * N) free a ↔ names (3 * N) free' a) →
  get_constrained_hess self free spring
  = get_constrained_hess self free' spring.
Proof.
  intros Hm Hfree Hfree' Hsame.
  destruct (get_constrained_hess_entries_signed self N free spring Hm Hfree)
    as (ch & -> & Hs & Hl & He).
  destruct (get_constrained_hess_entries_signed self N free' spring Hm Hfree')
    as (ch' & -> & Hs' & Hl' & He').
  f_equal. apply (ndarray_eq_2d (3 * N)); [congruence|done..|].
  intros a b Ha Hb. rewrite He, He' by done. f_equal.
  destruct (decide (a = b)); [|done].
  apply decide_ext. by apply Hsame.
Qed.

Lemma constrained_hess_index_set_witness :
  get_constrained_hess Examples.harmonic2 MoreExamples.free_negative
    (Examples.q 10)
  = get_constrained_hess Examples.harmonic2 MoreExamples.free_shuffled
      (Examples.q 10).
Proof.
  apply (constrained_hess_index_set Examples.harmonic2 2
           MoreExamples.free_negative MoreExamples.free_shuffled
           (Examples.q 10)).
  - repeat split; reflexivity.
  - repeat constructor; cbn; lia.
  - repeat constructor; cbn; lia.
  - intros a Ha. unfold names, MoreExamples.free_negative,
      MoreExamples.free_shuffled.
    rewrite !elem_of_cons, !elem_of_nil. lia.
Defined.

(** A subscript outside [-3N, 3N) makes [get_constrained_hess] fail with
    [IndexError], wherever it stands in the list. *)
Theorem constrained_hess_index_error self N rest free spring :
  shape (coords0 self) = N :: rest →
  Exists (λ i, ¬ valid_index (3 * N) i) free →
  get_constrained_hess self free spring = Raise IndexError.
Proof.
  intros Hcs Hbad. unfold get_constrained_hess, len. rewrite Hcs.
  cbn [rbind]. unfold scale, identity. cbn [shape data].
  generalize (Qcmult spring <$>
    tabulate2 (3 * N) (3 * N) (λ i j, if decide (i = j) then 1%Qc else 0%Qc)).
  induction free as [|i free IH]; intros d; [by apply Exists_nil in Hbad|].
  cbn [for_each]. unfold setitem2 at 1. cbn [shape data].
  destruct (decide (valid_index (3 * N) i)) as [Hi|Hi].
  - destruct (norm_index_valid _ i Hi) as (r & -> & _). cbn [rbind].
    apply IH. apply Exists_cons in Hbad as [?|?]; [done|done].
  - by rewrite norm_index_invalid.
Qed.

Lemma constrained_hess_index_error_witness :
  get_constrained_hess Examples.harmonic2 MoreExamples.free_bad (Examples.q 10)
  = Raise IndexError.
Proof.
  apply (constrained_hess_index_error Examples.harmonic2 2 [3]
           MoreExamples.free_bad (Examples.q 10)).
  - reflexivity.
  - apply Exists_cons_tl, Exists_cons_hd. unfold valid_index. cbn. lia.
Defined.

(** Constraining keeps the Hessian symmetric. *)
Theorem constrained_hess_symmetric self N free spring :
  harmonic_shapes self N →
  Forall (valid_index (3 * N)) free →
  symmetric (3 * N) (data (hess self)) →
  ∃ ch, get_constrained_hess self free spring = Ok ch ∧
        symmetric (3 * N) (data ch).
Proof.
  intros Hm Hfree Hsym.
  destruct (get_constrained_hess_entries_signed self N free spring Hm Hfree)
    as (ch & -> & Hs & Hl & He).
  exists ch. split; [done|]. intros a b Ha Hb.
  rewrite !He, Hsym by done. f_equal.
  destruct (decide (a = b)) as [->|Hab].
  - by rewrite (decide_True (P := b = b)).
  - by rewrite (decide_False (P := b = a)) by lia.
Qed.

(** A zero spring constrains nothing: the stored Hessian comes back. *)
Theorem constrained_hess_zero_spring self N free :
  harmonic_shapes self N →
  Forall (valid_index (3 * N)) free →
  get_constrained_hess self free 0%Qc = Ok (hess self).
Proof.
  intros Hm Hfree.
  destruct (get_constrained_hess_entries_signed self N free 0%Qc Hm Hfree)
    as (ch & -> & Hs & Hl & He).
  destruct Hm as (_ & _ & _ & _ & Hh & Hhs).
  f_equal. apply (ndarray_eq_2d (3 * N)); [congruence|done|sizes|].
  intros a b Ha Hb. rewrite He by done.
  destruct (decide (a = b)); [destruct (decide _)|]; ring.
Qed.

End Harmonic_free_indices.

(** ** Checking a property at every pair of subscripts below a bound *)

Section Finite_checks.

Lemma below_forall2 n (P : nat → nat → Prop) :
  Forall (λ a, Forall (P a) (seq 0 n)) (seq 0 n) →
  ∀ a b, a < n → b < n → P a b.
Proof.
  intros HP a b Ha Hb.
  rewrite Forall_forall in HP. specialize (HP a).
  rewrite Forall_forall in HP. apply HP; apply elem_of_seq; lia.
Qed.

Lemma hess_sym_symmetric : Props.symmetric 6 (data MoreExamples.hess_sym).
Proof.
  unfold Props.symmetric.
  apply (below_forall2 6
           (λ a b, flat (data MoreExamples.hess_sym) (a * 6 + b)
                   = flat (data MoreExamples.hess_sym) (b * 6 + a))).
  cbn [seq].
  repeat (constructor; [repeat (constructor;
    [apply Qc_is_canon; vm_compute; reflexivity|])|]); constructor.
Qed.

End Finite_checks.

Section Harmonic_free_indices_witnesses.
Import HarmonicModel Spec Props.

Lemma constrained_hess_symmetric_witness :
  ∃ ch, get_constrained_hess MoreExamples.harmonic_sym
          MoreExamples.free_negative (Examples.q 10) = Ok ch ∧
        symmetric (3 * 2) (data ch).
Proof.
  apply (constrained_hess_symmetric MoreExamples.harmonic_sym 2
           MoreExamples.free_negative (Examples.q 10)).
  - repeat split; reflexivity.
  - repeat constructor; cbn; lia.
  - exact hess_sym_symmetric.
Defined.

Lemma constrained_hess_zero_spring_witness :
  get_constrained_hess MoreExamples.harmonic_sym MoreExamples.free_negative
    0%Qc
  = Ok (hess MoreExamples.harmonic_sym).
Proof.
  apply (constrained_hess_zero_spring MoreExamples.harmonic_sym 2
           MoreExamples.free_negative).
  - repeat split; reflexivity.
  - repeat constructor; cbn; lia.
Defined.

End Harmonic_free_indices_witnesses.

(** ** [HarmonicModel]: what the pseudo-inverse does *)

Section Harmonic_pseudo_inverse_more.
Import HarmonicModel Spec Props.

Variable eigh : nat → list Qc → list Qc * list Qc.


End Harmonic_pseudo_inverse_more.

Section Harmonic_pseudo_inverse_witnesses.
Import HarmonicModel Spec Props.


End Harmonic_pseudo_inverse_witnesses.

(** ** [CoulombModel]: shift and exclusions *)

Section Coulomb_more.
Import CoulombModel Spec.

Variable bond : nat → nat → IC.t.

(** Adding the entry [[i, j]], i < j, to [exclude_pairs] takes the term of
    the pair (i, j) out of the terms that [get_energy] adds up, and leaves
    the other terms and their order as they were. *)
Theorem exclusion_drops_term coords charges name exclude_pairs queried i j :
  i < j →
  let kept := unexcluded_pairs (length charges) exclude_pairs in
  get_energy bond (init bond coords charges name exclude_pairs) queried false
  = foldl Qcplus 0%Qc (coulomb_pair bond charges queried <$> kept) ∧
  get_energy bond
    (init bond coords charges name
       ([Z.of_nat i; Z.of_nat j] :: exclude_pairs)) queried false
  = foldl Qcplus 0%Qc
      (coulomb_pair bond charges queried <$> filter (λ p, p ≠ (i, j)) kept).
Proof.
  intros Hij kept. rewrite !get_energy_fold. unfold init.
  cbn [CoulombModel.charges CoulombModel.exclude_pairs].
  split; [done|]. do 2 f_equal.
  subst kept. unfold unexcluded_pairs. rewrite list_filter_filter.
  apply filter_ext_in. intros [a b] _. cbn [fst snd].
  rewrite !not_elem_of_cons. split.
  - intros (Hab & [Hne1 Hn1] & [Hne2 Hn2]). repeat split; try done.
    intros [= -> ->]. done.
  - intros (Hne & Hab & Hn1 & Hn2). repeat split; try done.
    + intros [= ->%Nat2Z.inj ->%Nat2Z.inj]. done.
    + intros [= ->%Nat2Z.inj ->%Nat2Z.inj]. lia.
Qed.

(** When every pair i < j is excluded (in particular with fewer than two
    charges) the raw energy is 0. *)
Theorem no_pair_no_energy self queried :
  (∀ i j, i < j < length (charges self) →
     excluded i j (exclude_pairs self) = true) →
  get_energy bond self queried false = 0%Qc.
Proof.
  intros Hall. rewrite get_energy_fold. unfold unexcluded_pairs.
  rewrite (filter_ext_in _ (λ _, False)).
  - replace (filter (λ _, False) _) with (@nil (nat * nat)); [done|].
    generalize (i ← seq 0 (length (charges self));
                pair i <$> seq 0 (length (charges self))).
    intros l. induction l as [|x l IH]; [done|].
    by rewrite filter_cons_False by tauto.
  - intros [i j] Hin. cbn [fst snd]. split; [|done].
    intros [Hlt Hex%excluded_false_iff].
    apply list_elem_of_bind in Hin as (i' & Hin & Hi%elem_of_seq).
    apply list_elem_of_fmap in Hin as (j' & [= <- <-] & Hj%elem_of_seq).
    rewrite Hall in Hex by lia. done.
Qed.

End Coulomb_more.

Section Coulomb_more_witnesses.
Import CoulombModel Spec.

Lemma exclusion_drops_term_witness :
  let bond := Examples.axis_bond in
  let charges := Examples.charges3 in
  let ex := [[1; 2]]%Z in
  let kept := unexcluded_pairs (length charges) ex in
  get_energy bond (init bond Examples.coords3 charges "m" ex)
    Examples.coords3 false
  = foldl Qcplus 0%Qc (coulomb_pair bond charges Examples.coords3 <$> kept) ∧
  get_energy bond
    (init bond Examples.coords3 charges "m"
       ([Z.of_nat 0; Z.of_nat 2] :: ex)) Examples.coords3 false
  = foldl Qcplus 0%Qc
      (coulomb_pair bond charges Examples.coords3
         <$> filter (λ p, p ≠ (0, 2)) kept).
Proof.
  apply (exclusion_drops_term Examples.axis_bond Examples.coords3
           Examples.charges3 "m" [[1; 2]]%Z Examples.coords3 0 2).
  lia.
Defined.


Lemma no_pair_no_energy_witness :
  get_energy Examples.axis_bond
    (init Examples.axis_bond Examples.coords3 Examples.charges3 "m"
       [[0; 1]; [2; 0]; [1; 2]]%Z)
    Examples.coords2 false = 0%Qc.
Proof.
  apply (no_pair_no_energy Examples.axis_bond
           (init Examples.axis_bond Examples.coords3 Examples.charges3 "m"
              [[0; 1]; [2; 0]; [1; 2]]%Z) Examples.coords2).
  intros i j Hij. cbn in Hij.
  destruct i as [|[|[|i]]], j as [|[|[|j]]]; first [lia | reflexivity].
Defined.

End Coulomb_more_witnesses.

(** ** Exclusion lists as sets, and entries that are not pairs *)

Section Exclusions_more.
Import Spec.

Lemma excluded_same_entries i j (ex ex' : list (list Z)) :
  (∀ e, e ∈ ex ↔ e ∈ ex') → excluded i j ex = excluded i j ex'.
Proof.
  intros Hsame. unfold excluded, pair_in. apply eq_true_iff_eq.
  by rewrite !orb_true_iff, !bool_decide_eq_true, !Hsame.
Qed.

Lemma excluded_drop_malformed i j (e : list Z) pre post :
  length e ≠ 2 →
  excluded i j (pre ++ e :: post) = excluded i j (pre ++ post).
Proof.
  intros He. unfold excluded, pair_in. apply eq_true_iff_eq.
  rewrite !orb_true_iff, !bool_decide_eq_true.
  rewrite !elem_of_app, !elem_of_cons.
  split; [|tauto].
  intros [[?|[<-|?]]|[?|[<-|?]]]; auto; done.
Qed.

(** [exclude_pairs] is read as a set: two lists with the same entries, in
    any order and with any repetitions, give the same energy and the same
    forces and Hessian. *)
Theorem exclusions_are_a_set (bond : nat → nat → IC.t)
    coords charges name sample exclude_types (ex ex' : list (list Z))
    queried shift :
  (∀ e, e ∈ ex ↔ e ∈ ex') →
  CoulombModel.get_energy bond
    (CoulombModel.init bond coords charges name ex) queried shift
  = CoulombModel.get_energy bond
      (CoulombModel.init bond coords charges name ex') queried shift ∧
  electrostatics bond sample ex exclude_types
  = electrostatics bond sample ex' exclude_types.
Proof.
  intros Hsame. split.
  - apply init_exclusions. intros. by apply excluded_same_entries.
  - apply electrostatics_exclusions. intros. by apply excluded_same_entries.
Qed.

Lemma exclusions_are_a_set_witness :
  let bond := Examples.axis_bond in
  let ex := [[0; 1]; [1; 2]; [0; 1]]%Z in
  let ex' := [[1; 2]; [0; 1]]%Z in
  CoulombModel.get_energy bond
    (CoulombModel.init bond Examples.coords3 Examples.charges3 "m" ex)
    Examples.coords3 true
  = CoulombModel.get_energy bond
      (CoulombModel.init bond Examples.coords3 Examples.charges3 "m" ex')
      Examples.coords3 true ∧
  electrostatics bond Examples.sample3 ex []
  = electrostatics bond Examples.sample3 ex' [].
Proof.
  apply (exclusions_are_a_set Examples.axis_bond Examples.coords3
           Examples.charges3 "m" Examples.sample3 []
           [[0; 1]; [1; 2]; [0; 1]]%Z [[1; 2]; [0; 1]]%Z Examples.coords3 true).
  intros e. rewrite !elem_of_cons, !elem_of_nil. tauto.
Defined.

(** An entry that is not a two-element list is never matched: the results
    are those without it, and nothing is raised on its account. *)
Theorem malformed_exclusion_ignored (bond : nat → nat → IC.t)
    coords charges name sample exclude_types (pre post : list (list Z))
    (e : list Z) queried shift :
  length e ≠ 2 →
  CoulombModel.get_energy bond
    (CoulombModel.init bond coords charges name (pre ++ e :: post))
    queried shift
  = CoulombModel.get_energy bond
      (CoulombModel.init bond coords charges name (pre ++ post))
      queried shift ∧
  electrostatics bond sample (pre ++ e :: post) exclude_types
  = electrostatics bond sample (pre ++ post) exclude_types.
Proof.
  intros He. split.
  - apply init_exclusions. intros. by apply excluded_drop_malformed.
  - apply electrostatics_exclusions. intros. by apply excluded_drop_malformed.
Qed.

Lemma malformed_exclusion_ignored_witness :
  let bond := Examples.axis_bond in
  CoulombModel.get_energy bond
    (CoulombModel.init bond Examples.coords3 Examples.charges3 "m"
       ([[0; 1]] ++ [0; 1; 2] :: [])%Z)
    Examples.coords3 true
  = CoulombModel.get_energy bond
      (CoulombModel.init bond Examples.coords3 Examples.charges3 "m"
         ([[0; 1]] ++ [])%Z)
      Examples.coords3 true ∧
  electrostatics bond Examples.sample3 ([[0; 1]] ++ [0; 1; 2] :: [])%Z []
  = electrostatics bond Examples.sample3 ([[0; 1]] ++ [])%Z [].
Proof.
  apply (malformed_exclusion_ignored Examples.axis_bond Examples.coords3
           Examples.charges3 "m" Examples.sample3 [] [[0; 1]]%Z []
           [0; 1; 2]%Z Examples.coords3 true).
  cbn. lia.
Defined.

End Exclusions_more.

(** ** [electrostatics]: type labels, excluded types, symmetry *)

Section Electrostatics_more.
Import Spec Props.

Variable bond : nat → nat → IC.t.

Lemma for_each_app {A S} (l1 l2 : list A) (f : A → S → result S) s :
  for_each (l1 ++ l2) f s = (s' ←! for_each l1 f s; for_each l2 f s').
Proof.
  revert s. induction l1 as [|x l1 IH]; intros s; [done|].
  cbn [app for_each]. destruct (f x s); cbn [rbind]; [apply IH|done].
Qed.

Lemma seq_split_at T N :
  T < N → seq 0 N = seq 0 T ++ T :: seq (S T) (N - S T).
Proof.
  intros HT. replace N with (T + S (N - S T)) at 1 by lia.
  by rewrite seq_app.
Qed.

(** The loop over [j] keeps the shapes of the state, for atoms whose type
    labels exist. *)
Lemma inner_loop_shapes sample exp (ext : list string) N i (js : list nat) st :
  bond_shapes bond (coordinates sample) N → i < N →
  Forall (λ j, j < N ∧ j < length (ffatypes sample)) js →
  state_shapes (3 * N) st →
  ∃ st',
    for_each js (λ j st,
      tj ←! getitem (ffatypes sample) j;
      if bool_decide (tj ∈ ext) then Ok st
      else if excluded i j exp then Ok st
      else accumulate bond sample i j st) st = Ok st' ∧
    state_shapes (3 * N) st'.
Proof.
  intros Hb Hi Hjs. revert st.
  induction Hjs as [|j js [Hj Hjt] Hjs IH]; intros st Hst.
  - by exists st.
  - cbn [for_each].
    destruct (getitem_ok (ffatypes sample) j Hjt) as (tj & _ & ->).
    cbn [rbind].
    destruct (bool_decide (tj ∈ ext)); cbn [rbind]; [by apply IH|].
    destruct (excluded i j exp); cbn [rbind]; [by apply IH|].
    destruct (accumulate_step bond sample N i j st Hb Hi Hj Hst)
      as (st1 & -> & Hst1 & _). cbn [rbind]. by apply IH.
Qed.

Lemma outer_loop_shapes sample exp (ext : list string) N (ixs : list nat) st :
  bond_shapes bond (coordinates sample) N →
  Forall (λ i, i < N ∧ i < length (ffatypes sample)) ixs →
  state_shapes (3 * N) st →
  ∃ st',
    for_each ixs (λ i st,
      ti ←! getitem (ffatypes sample) i;
      if bool_decide (ti ∈ ext) then Ok st
      else for_each (seq 0 i) (λ j st,
        tj ←! getitem (ffatypes sample) j;
        if bool_decide (tj ∈ ext) then Ok st
        else if excluded i j exp then Ok st
        else accumulate bond sample i j st) st) st = Ok st' ∧
    state_shapes (3 * N) st'.
Proof.
  intros Hb Hixs. revert st.
  induction Hixs as [|i ixs [Hi Hit] Hixs IH]; intros st Hst.
  - by exists st.
  - cbn [for_each].
    destruct (getitem_ok (ffatypes sample) i Hit) as (ti & _ & ->).
    cbn [rbind].
    destruct (bool_decide (ti ∈ ext)); cbn [rbind]; [by apply IH|].
    destruct (inner_loop_shapes sample exp ext N i (seq 0 i) st)
      as (st1 & -> & Hst1); try done.
    { apply Forall_forall. intros j Hj%elem_of_seq. lia. }
    cbn [rbind]. by apply IH.
Qed.

(** A sample with fewer type labels than charges makes [electrostatics]
    fail with [IndexError] when the loop reaches the first atom without a
    label. *)
Theorem electrostatics_missing_type sample exclude_pairs exclude_types :
  bond_shapes bond (coordinates sample) (length (ac sample)) →
  length (ffatypes sample) < length (ac sample) →
  electrostatics bond sample exclude_pairs exclude_types = Raise IndexError.
Proof.
  intros Hb Hshort. unfold electrostatics.
  set (N := length (ac sample)) in *. set (T := length (ffatypes sample)) in *.
  rewrite (seq_split_at T N) by done.
  rewrite for_each_app.
  destruct (outer_loop_shapes sample exclude_pairs exclude_types N (seq 0 T)
             (zeros [3 * N], zeros [3 * N; 3 * N])) as (st & -> & _).
  - done.
  - apply Forall_forall. intros i Hi%elem_of_seq. subst T. lia.
  - unfold zeros. repeat split; cbn [fst snd]; sizes.
  - cbn [rbind for_each]. unfold getitem at 1.
    rewrite lookup_ge_None_2 by done. done.
Qed.

(** When the type of every atom is excluded, no pair is visited: the result
    is all zeros, and the distance primitive is never evaluated. *)
Theorem electrostatics_all_types_excluded sample exclude_pairs exclude_types :
  length (ac sample) ≤ length (ffatypes sample) →
  Forall (λ t, t ∈ exclude_types) (ffatypes sample) →
  electrostatics bond sample exclude_pairs exclude_types
  = Ok (zeros [3 * length (ac sample)],
        zeros [3 * length (ac sample); 3 * length (ac sample)]).
Proof.
  intros Hlen Hall. unfold electrostatics.
  generalize (zeros [3 * length (ac sample)],
              zeros [3 * length (ac sample); 3 * length (ac sample)]).
  assert (Forall (λ i, i < length (ffatypes sample))
            (seq 0 (length (ac sample)))) as Hixs.
  { apply Forall_forall. intros i Hi%elem_of_seq. lia. }
  induction Hixs as [|i ixs Hi Hixs IH]; intros st; [done|].
  cbn [for_each].
  destruct (getitem_ok (ffatypes sample) i Hi) as (ti & Hti & ->).
  cbn [rbind]. rewrite bool_decide_eq_true_2; [apply IH|].
  rewrite Forall_forall in Hall. apply Hall.
  by apply list_elem_of_lookup_2 in Hti.
Qed.

(** The Hessian that [electrostatics] assembles is symmetric when the
    Hessians of the distance primitive are. *)
Theorem electrostatics_hessian_symmetric sample exclude_pairs exclude_types N :
  length (ac sample) = N → length (ffatypes sample) = N →
  bond_shapes bond (coordinates sample) N →
  (∀ i j, i < N → j < N →
     symmetric (3 * N) (data (IC.hess (bond i j) (coordinates sample)))) →
  ∃ forces hess,
    electrostatics bond sample exclude_pairs exclude_types = Ok (forces, hess) ∧
    symmetric (3 * N) (data hess).
Proof.
  intros Hq Hty Hb Hsym. unfold electrostatics. rewrite Hq.
  destruct (outer_loop_accumulated bond sample exclude_pairs exclude_types N
              (seq 0 N) (zeros [3 * N], zeros [3 * N; 3 * N]))
    as ([F H] & -> & _ & _ & HH); try done.
  { apply Forall_forall. intros i Hi%elem_of_seq. lia. }
  { unfold zeros. repeat split; cbn [fst snd]; sizes. }
  cbn [fst snd] in *. exists F, H. split; [done|].
  intros a b Ha Hb'. rewrite !HH by done.
  unfold zeros. cbn [data]. rewrite !flat_replicate by (sizes; nia).
  do 2 f_equal. apply list_fmap_ext. intros k [i j] Hk.
  apply list_elem_of_lookup_2, list_elem_of_filter in Hk as [_ Hk].
  apply list_elem_of_bind in Hk as (i' & Hk & Hi%elem_of_seq).
  apply list_elem_of_fmap in Hk as (j' & [= <- <-] & Hj%elem_of_seq).
  unfold hess_term. cbn [fst snd]. rewrite (Hsym i j) by lia. ring.
Qed.

End Electrostatics_more.

Section Electrostatics_more_witnesses.
Import Spec Props.

Lemma bond_shapes_short :
  bond_shapes Examples.axis_bond (coordinates MoreExamples.sample_short)
    (length (ac MoreExamples.sample_short)).
Proof. intros i j _ _. repeat split; reflexivity. Qed.

Lemma electrostatics_missing_type_witness :
  electrostatics Examples.axis_bond MoreExamples.sample_short [] []
  = Raise IndexError.
Proof.
  apply (electrostatics_missing_type Examples.axis_bond
           MoreExamples.sample_short [] []).
  - exact bond_shapes_short.
  - cbn. lia.
Defined.

Lemma electrostatics_all_types_excluded_witness :
  let sample := Examples.sample3 in
  electrostatics Examples.axis_bond sample [] ["H"; "C"; "O"]%string
  = Ok (zeros [3 * length (ac sample)],
        zeros [3 * length (ac sample); 3 * length (ac sample)]).
Proof.
  apply (electrostatics_all_types_excluded Examples.axis_bond Examples.sample3
           [] ["H"; "C"; "O"]%string).
  - cbn. lia.
  - repeat constructor.
Defined.

Lemma axis_bond_hess_symmetric :
  ∀ i j, i < 3 → j < 3 →
    symmetric (3 * 3)
      (data (IC.hess (Examples.axis_bond i j) (coordinates Examples.sample3))).
Proof.
  intros i j _ _ a b Ha Hb. cbn [IC.hess Examples.axis_bond data zeros].
  rewrite !flat_replicate; [done|cbn in *; nia..].
Qed.

Lemma electrostatics_hessian_symmetric_witness :
  ∃ forces hess,
    electrostatics Examples.axis_bond Examples.sample3 [[0; 1]]%Z []
    = Ok (forces, hess) ∧
    symmetric (3 * 3) (data hess).
Proof.
  apply (electrostatics_hessian_symmetric Examples.axis_bond Examples.sample3
           [[0; 1]]%Z [] 3).
  - reflexivity.
  - reflexivity.
  - exact axis_bond_shapes.
  - exact axis_bond_hess_symmetric.
Defined.

End Electrostatics_more_witnesses.
